(** * target-csv: the message loop, the CSV writer, the checkpoint and the
      SFTP transfer of [target_csv.py], embedded and verified.

    The embedding follows [persist_messages], [emit_state] and [main] of
    [target_csv.py] statement by statement.  What the program obtains from
    libraries and from its environment (the clock, [json.dumps], the
    jsonschema validator, the [csv] module, [os.path.expanduser], file
    permissions, the remote SFTP server) is collected in one record,
    [platform], over which every definition and theorem is parametric.
    The file system is a finite map from path strings to file texts, and
    the calls made on the paramiko session and the writes to standard
    output are recorded in traces. *)

From Stdlib Require Import ZArith String Ascii List DecimalString.
From stdpp Require Import base option list strings gmap.

Open Scope string_scope.
Open Scope list_scope.
Set Warnings "-register-all".

(** ** Python values *)

(** Decoded JSON as Python sees it.  JSON [null] and Python [None] are the
    same value, [PNone].  Floating-point numbers are left out. *)
Inductive pyval :=
| PNone
| PBool (b : bool)
| PInt (n : Z)
| PStr (s : string)
| PList (items : list pyval)
| PDict (items : list (string * pyval)).

(** Python's truth value of an object, as [if x:] and [x and y] test it. *)
Definition truthy (v : pyval) : bool :=
  match v with
  | PNone => false
  | PBool b => b
  | PInt n => negb (n =? 0)%Z
  | PStr s => negb (String.eqb s "")
  | PList items => match items with [] => false | _ => true end
  | PDict items => match items with [] => false | _ => true end
  end.

(** ** Insertion-ordered dictionaries

    A Python [dict] keeps its keys in the order of their first insertion;
    [stream_2_filenames.values()] and [record.keys()] are read in that
    order, so these two are association lists.  Dictionaries that are only
    looked up by key are [gmap]s. *)
Section odict.
Context {V : Type}.

Fixpoint od_get (k : string) (d : list (string * V)) : option V :=
  match d with
  | [] => None
  | (k', v) :: d' => if decide (k' = k) then Some v else od_get k d'
  end.

(** [d[k] = v]: overwrite in place, or append a new key at the end. *)
Fixpoint od_set (k : string) (v : V) (d : list (string * V)) : list (string * V) :=
  match d with
  | [] => [(k, v)]
  | (k', v') :: d' =>
      if decide (k' = k) then (k, v) :: d' else (k', v') :: od_set k v d'
  end.

Definition od_keys (d : list (string * V)) : list string := map fst d.
Definition od_values (d : list (string * V)) : list V := map snd d.
End odict.

(** ** Messages *)

(** What [singer.parse_message(message).asdict()] yields for a line that
    the library decodes: it has a message class for these four types. *)
Inductive message :=
| RECORD (stream : string) (record : list (string * pyval))
| STATE (value : pyval)
| SCHEMA (stream : string) (schema : pyval) (key_props : pyval)
| ACTIVATE_VERSION (stream : string) (version : pyval).

(** What line 57 meets on an input line: [parse_message] returns a
    message; or it returns [None], as it does for a type it has no class
    for, and [.asdict()] raises; or it raises on text that is not JSON;
    or it raises its own exception on JSON that lacks a key the message
    type requires. *)
Inductive line :=
| Decoded (m : message)
| Unrecognised
| Garbled
| Malformed.

(** ** Exceptions *)

Inductive exn :=
| JSONDecodeError
| AttributeError
| MessageError
| TypeError
| RecordBeforeSchema (stream : string)
| KeyError (key : string)
| ValidationError (stream : string)
| CsvError (path : string)
| OSError (path : string)
| ConnectFailed
| OpenSftpFailed
| PutFailed (localpath : string).

(** ** The world outside the process *)

(** Calls made on the paramiko client and its SFTP channel, with outcome. *)
Inductive sftp_event :=
| Connect (hostname username password : pyval) (ok : bool)
| OpenSftp (ok : bool)
| Put (localpath remotepath : string) (ok : bool)
| SftpClose
| ClientClose.

Inductive out_event :=
| StdoutWrite (text : string)
| StdoutFlush.

Record world := World {
  fs : gmap string string;
  sftp_log : list sftp_event;
  stdout : list out_event
}.

Definition with_fs (f : gmap string string) (w : world) : world :=
  World f (sftp_log w) (stdout w).
Definition log_sftp (e : sftp_event) (w : world) : world :=
  World (fs w) (sftp_log w ++ [e]) (stdout w).
Definition log_out (e : out_event) (w : world) : world :=
  World (fs w) (sftp_log w) (stdout w ++ [e]).

(** Library functions and environment the program depends on. *)
Record platform := Platform {
  (** [datetime.now().strftime('%Y%m%dT%H%M%S')] *)
  now : string;
  (** [json.dumps] *)
  json_dumps : pyval -> string;
  (** [Draft4Validator(schema).validate(record)] returns without raising *)
  schema_accepts : pyval -> list (string * pyval) -> bool;
  (** [os.path.expanduser] on a path that starts with a tilde *)
  expand_tilde : string -> string;
  (** [next(csv.reader(f, delimiter, quotechar))] on the text of a file;
      [None] when reading or parsing raises *)
  csv_first_row : string -> string -> string -> option (list string);
  (** the text [csv.writer(f, delimiter, quotechar).writerow(cells)] emits *)
  csv_writerow : string -> string -> list pyval -> string;
  (** [csv.DictWriter(f, ..., delimiter=, quotechar=)] is built without
      raising (it raises [TypeError] on a delimiter that is not one
      character, for one) *)
  csv_dialect_ok : string -> string -> bool;
  (** [writerow(cells)] of that writer returns without raising *)
  csv_row_ok : string -> string -> list pyval -> bool;
  (** [open(path, 'a')] succeeds *)
  can_append : string -> bool;
  (** outcome of [client.connect], [client.open_sftp] and of the copy made
      by [sftp.put] once the local file has been found *)
  connect_ok : pyval -> pyval -> pyval -> bool;
  open_sftp_ok : bool;
  put_ok : string -> string -> string -> bool
}.

(** ** A state and exception monad over the world *)

Definition io (A : Type) : Type := world -> (exn + A) * world.

Definition ret {A} (a : A) : io A := fun w => (inr a, w).
Definition raise {A} (e : exn) : io A := fun w => (inl e, w).
Definition bind {A B} (c : io A) (k : A -> io B) : io B :=
  fun w => match c w with
           | (inl e, w') => (inl e, w')
           | (inr a, w') => k a w'
           end.

Notation "x <-- c ;; k" := (bind c (fun x => k))
  (at level 100, c at next level, right associativity).
Notation "c ;;; k" := (bind c (fun _ => k))
  (at level 100, right associativity).

Definition when_not {A} (b : bool) (e : exn) (k : io A) : io A :=
  if b then k else raise e.

(** ** Paths *)

Fixpoint endswith_char (c : ascii) (s : string) : bool :=
  match s with
  | EmptyString => false
  | String a EmptyString => Ascii.eqb a c
  | String _ rest => endswith_char c rest
  end.

(** [os.path.join(a, b)] of [posixpath]. *)
Definition path_join (a b : string) : string :=
  if String.prefix "/" b then b
  else if String.eqb a "" || endswith_char "/"%char a then a +:+ b
  else a +:+ "/" +:+ b.

(** ** The locals of [persist_messages] *)

Record locals := Locals {
  state : pyval;
  schemas : gmap string pyval;
  stream_2_filenames : list (string * string);
  key_properties : gmap string pyval;
  headers : gmap string (list string);
  validators : gmap string pyval
}.

Definition initial_locals : locals := Locals PNone ∅ [] ∅ ∅ ∅.

Definition set_state (v : pyval) (L : locals) : locals :=
  Locals v (schemas L) (stream_2_filenames L) (key_properties L)
         (headers L) (validators L).
Definition set_filename (stream filename : string) (L : locals) : locals :=
  Locals (state L) (schemas L) (od_set stream filename (stream_2_filenames L))
         (key_properties L) (headers L) (validators L).
Definition set_headers (stream : string) (h : list string) (L : locals) : locals :=
  Locals (state L) (schemas L) (stream_2_filenames L) (key_properties L)
         (<[stream := h]> (headers L)) (validators L).
Definition declare (stream : string) (schema key_props : pyval) (L : locals) : locals :=
  Locals (state L) (<[stream := schema]> (schemas L)) (stream_2_filenames L)
         (<[stream := key_props]> (key_properties L)) (headers L)
         (<[stream := schema]> (validators L)).

(** [csv.DictWriter._dict_to_list] with [restval=''] and
    [extrasaction='ignore']: one cell per field name, looked up by name. *)
Definition dict_to_list (fieldnames : list string)
    (rowdict : list (string * pyval)) : list pyval :=
  map (fun key => default (PStr "") (od_get key rowdict)) fieldnames.

(** ** [flatten], lines 31 to 39

    [flatten] is defined in the file but its only call is commented out
    (line 74).  [py_str] stands for Python's [str] on a list.  A mapping
    value is any [PDict]; the test [isinstance(v, MutableMapping)] is
    taken to succeed on it, as it does before Python 3.10. *)

(** [dict(items)]: later pairs overwrite earlier ones in place. *)
Definition dict_of_items {V} (items : list (string * V)) : list (string * V) :=
  fold_left (fun d kv => od_set (fst kv) (snd kv) d) items [].

(** [parent_key + sep + k if parent_key else k] *)
Definition child_key (parent_key sep k : string) : string :=
  if String.eqb parent_key "" then k else parent_key +:+ sep +:+ k.

(** What one pair [(k, v)] of the loop adds to [items], [new_key] being
    the key computed for it; the [PDict] case is the recursive call
    [flatten(v, new_key, sep).items()]. *)
Fixpoint flatten_entry (py_str : pyval -> string) (sep new_key : string)
    (v : pyval) {struct v} : list (string * pyval) :=
  match v with
  | PDict d =>
      dict_of_items
        ((fix items (d : list (string * pyval)) : list (string * pyval) :=
            match d with
            | [] => []
            | kv :: rest =>
                flatten_entry py_str sep (child_key new_key sep (fst kv)) (snd kv)
                ++ items rest
            end) d)
  | PList _ => [(new_key, PStr (py_str v))]
  | _ => [(new_key, v)]
  end.

Definition flatten (py_str : pyval -> string) (d : list (string * pyval))
    (parent_key sep : string) : list (string * pyval) :=
  flatten_entry py_str sep parent_key (PDict d).

(** A value that is neither a mapping nor a list. *)
Definition is_scalar (v : pyval) : bool :=
  match v with
  | PDict _ | PList _ => false
  | _ => true
  end.

(** ** A concrete platform

    Used to run the program on concrete inputs.  Its [csv] layer agrees
    with Python's on rows whose cells are scalars that contain neither the
    delimiter, the quote character nor a line break; its [json.dumps] on
    values whose strings need no escaping. *)

Definition dquote : string := String (ascii_of_nat 34) EmptyString.
Definition crlf : string :=
  String (ascii_of_nat 13) (String (ascii_of_nat 10) EmptyString).

Definition str_int (n : Z) : string := NilZero.string_of_int (Z.to_int n).

Fixpoint plain_dumps (v : pyval) : string :=
  match v with
  | PNone => "null"
  | PBool true => "true"
  | PBool false => "false"
  | PInt n => str_int n
  | PStr s => dquote +:+ s +:+ dquote
  | PList items => "[" +:+ String.concat ", " (map plain_dumps items) +:+ "]"
  | PDict items =>
      "{" +:+ String.concat ", "
                (map (fun kv => dquote +:+ fst kv +:+ dquote +:+ ": "
                                 +:+ plain_dumps (snd kv)) items) +:+ "}"
  end.

Definition plain_cell (v : pyval) : string :=
  match v with
  | PNone => ""
  | PBool true => "True"
  | PBool false => "False"
  | PInt n => str_int n
  | PStr s => s
  | nested => plain_dumps nested
  end.

Definition plain_writerow (delimiter quotechar : string) (cells : list pyval) : string :=
  String.concat delimiter (map plain_cell cells) +:+ crlf.

Fixpoint until_newline (s : string) : string :=
  match s with
  | EmptyString => EmptyString
  | String a rest =>
      if Ascii.eqb a (ascii_of_nat 13) || Ascii.eqb a (ascii_of_nat 10)
      then EmptyString else String a (until_newline rest)
  end.

Fixpoint split_char (c : ascii) (s : string) : list string :=
  match s with
  | EmptyString => [EmptyString]
  | String a rest =>
      if Ascii.eqb a c then EmptyString :: split_char c rest
      else match split_char c rest with
           | [] => [String a EmptyString]
           | x :: xs => String a x :: xs
           end
  end.

Definition plain_first_row (delimiter quotechar text : string) : option (list string) :=
  let first := until_newline text in
  let sep := match delimiter with String c _ => c | EmptyString => ","%char end in
  Some (if String.eqb first "" then [] else split_char sep first).

Definition plain : platform :=
  {| now := "20240102T030405";
     json_dumps := plain_dumps;
     schema_accepts := fun _ _ => true;
     expand_tilde := fun p => "/home/user" +:+ String.substring 1 (String.length p - 1) p;
     csv_first_row := plain_first_row;
     csv_writerow := plain_writerow;
     csv_dialect_ok := fun delimiter _ => Nat.eqb (String.length delimiter) 1;
     csv_row_ok := fun _ _ _ => true;
     can_append := fun _ => true;
     connect_ok := fun _ _ _ => true;
     open_sftp_ok := true;
     put_ok := fun _ _ _ => true |}.

Definition empty_world : world := World ∅ [] [].

Definition newline : string := String (ascii_of_nat 10) EmptyString.

(** What [main] reads from the configuration file; [None] is an absent key. *)
Record config := Config {
  cfg_delimiter : option string;
  cfg_quotechar : option string;
  cfg_destination_path : option string;
  cfg_fixed_headers : option (gmap string (list string));
  cfg_sftp_host : option pyval;
  cfg_sftp_username : option pyval;
  cfg_sftp_password : option pyval;
  cfg_sftp_port : option pyval;
  cfg_sftp_public_key : option pyval;
  cfg_sftp_public_key_format : option pyval
}.

Definition empty_config : config :=
  Config None None None None None None None None None None.

(** Values of the variables [sftp] and [client] on leaving the [try] block:
    [true] when the variable is not [None]. *)
Record session := Session { sftp : bool; client : bool }.

(** Sample inputs on which the program is run below. *)
Definition users_schema : line := Decoded (SCHEMA "users" (PDict []) (PList [])).
Definition users_file : string := "users-20240102T030405.csv".
Definition orders_schema : line := Decoded (SCHEMA "orders" (PDict []) (PList [])).
Definition bookmark : pyval := PDict [("bookmark", PInt 42)].
Definition xy_record : list (string * pyval) := [("x", PInt 1); ("y", PInt 2)].
Definition zyx_headers : option (gmap string (list string)) :=
  Some (<["users" := ["z"; "y"; "x"]]> ∅).
Definition five_credentials (destination_path : option string) : config :=
  {| cfg_delimiter := None; cfg_quotechar := None;
     cfg_destination_path := destination_path;
     cfg_fixed_headers := None;
     cfg_sftp_host := Some (PStr "files.example.org");
     cfg_sftp_username := Some (PStr "loader");
     cfg_sftp_password := Some (PStr "secret");
     cfg_sftp_port := None;
     cfg_sftp_public_key := Some (PStr "AAAAB3Nza");
     cfg_sftp_public_key_format := Some (PStr "ssh-rsa") |}.

(** The concrete platform with a validator that wants a field [id]. *)
Definition wants_id : platform :=
  {| now := now plain;
     json_dumps := json_dumps plain;
     schema_accepts := fun _ record =>
                         match od_get "id" record with Some _ => true | None => false end;
     expand_tilde := expand_tilde plain;
     csv_first_row := csv_first_row plain;
     csv_writerow := csv_writerow plain;
     csv_dialect_ok := csv_dialect_ok plain;
     csv_row_ok := csv_row_ok plain;
     can_append := can_append plain;
     connect_ok := connect_ok plain;
     open_sftp_ok := open_sftp_ok plain;
     put_ok := put_ok plain |}.

Definition abc_file : world := World (<[users_file := "a,b,c" +:+ crlf]> ∅) [] [].
Definition abcd_record : list (string * pyval) :=
  [("a", PInt 1); ("b", PInt 2); ("c", PInt 3); ("d", PInt 4)].

(** ** The program *)

Section Target.
Variable P : platform.

(** *** File system and csv primitives *)

Definition expanduser (path : string) : string :=
  if String.prefix "~" path then expand_tilde P path else path.

(** [(not os.path.isfile(filename)) or os.stat(filename).st_size == 0] *)
Definition empty_or_missing (files : gmap string string) (filename : string) : bool :=
  match files !! filename with
  | None => true
  | Some text => String.eqb text ""
  end.

Definition stat_is_empty (filename : string) : io bool :=
  fun w => (inr (empty_or_missing (fs w) filename), w).

(** [open(filename, 'r')] and [next(csv.reader(...))]; [CsvError] stands
    for whichever exception building the reader or reading the row raises. *)
Definition read_first_row (delimiter quotechar filename : string) : io (list string) :=
  fun w => match fs w !! filename with
           | None => (inl (OSError filename), w)
           | Some text =>
               match csv_first_row P delimiter quotechar text with
               | None => (inl (CsvError filename), w)
               | Some row => (inr row, w)
               end
           end.

(** [open(filename, 'a')]: afterwards the file exists, created empty when
    it was missing, its text unchanged otherwise. *)
Definition open_append (filename : string) : io unit :=
  fun w => if can_append P filename
           then (inr tt, with_fs (<[filename := default "" (fs w !! filename)]> (fs w)) w)
           else (inl (OSError filename), w).

(** [writer.writerow(cells)] on the open file: the text reaches the file
    when the block is left, also when a later statement of it raises. *)
Definition write_cells (delimiter quotechar filename : string)
    (cells : list pyval) : io unit :=
  fun w => if csv_row_ok P delimiter quotechar cells
           then (inr tt,
                 with_fs (<[filename := default "" (fs w !! filename)
                                        +:+ csv_writerow P delimiter quotechar cells]>
                            (fs w)) w)
           else (inl (CsvError filename), w).

Definition writeheader (delimiter quotechar : string) (fieldnames : list string) : string :=
  csv_writerow P delimiter quotechar (map PStr fieldnames).

Definition writerow (delimiter quotechar : string) (fieldnames : list string)
    (rowdict : list (string * pyval)) : string :=
  csv_writerow P delimiter quotechar (dict_to_list fieldnames rowdict).

(** Lines 91 to 100, the [with open(filename, 'a')] block: open, build the
    [DictWriter], write the header row when the file was empty, write the
    record's row. *)
Definition write_record (delimiter quotechar filename : string)
    (fieldnames : list string) (file_is_empty : bool)
    (rowdict : list (string * pyval)) : io unit :=
  open_append filename ;;;
  when_not (csv_dialect_ok P delimiter quotechar) TypeError (
    (if file_is_empty
     then write_cells delimiter quotechar filename (map PStr fieldnames)
     else ret tt) ;;;
    write_cells delimiter quotechar filename (dict_to_list fieldnames rowdict)).

(** *** The message loop *)

(** [o['stream'] + '-' + now + '.csv'] *)
Definition stream_filename (stream : string) : string :=
  stream +:+ "-" +:+ now P +:+ ".csv".

(** [os.path.expanduser(os.path.join(destination_path, filename))] *)
Definition destination (destination_path stream : string) : string :=
  expanduser (path_join destination_path (stream_filename stream)).

(** [fixed_headers is not None and o['stream'] in fixed_headers] *)
Definition fixed_entry (fixed_headers : option (gmap string (list string)))
    (stream : string) : option (list string) :=
  match fixed_headers with
  | None => None
  | Some fh => fh !! stream
  end.

(** Lines 77 to 89: which header list the stream's writer gets. *)
Definition resolve_headers (delimiter quotechar filename : string)
    (fixed_headers : option (gmap string (list string)))
    (stream : string) (flattened_record : list (string * pyval))
    (file_is_empty : bool) (L : locals) : io locals :=
  match fixed_entry fixed_headers stream with
  | Some fixed =>
      match headers L !! stream with
      | None => ret (set_headers stream fixed L)
      | Some _ => ret L
      end
  | None =>
      if bool_decide (headers L !! stream = None) && negb file_is_empty then
        first_line <-- read_first_row delimiter quotechar filename ;;
        ret (set_headers stream
               (match first_line with
                | [] => od_keys flattened_record
                | _ => first_line
                end) L)
      else ret (set_headers stream (od_keys flattened_record) L)
  end.

(** The [RECORD] branch, lines 62 to 102. *)
Definition process_record (delimiter quotechar destination_path : string)
    (fixed_headers : option (gmap string (list string)))
    (stream : string) (record : list (string * pyval)) (L : locals) : io locals :=
  match schemas L !! stream with
  | None => raise (RecordBeforeSchema stream)
  | Some _ =>
      match validators L !! stream with
      | None => raise (KeyError stream)
      | Some schema =>
          when_not (schema_accepts P schema record) (ValidationError stream) (
            let filename := stream_filename stream in
            let L := set_filename stream filename L in
            let filename := expanduser (path_join destination_path filename) in
            file_is_empty <-- stat_is_empty filename ;;
            let flattened_record := record in
            L <-- resolve_headers delimiter quotechar filename fixed_headers
                    stream flattened_record file_is_empty L ;;
            match headers L !! stream with
            | None => raise (KeyError stream)
            | Some fieldnames =>
                write_record delimiter quotechar filename fieldnames
                  file_is_empty flattened_record ;;;
                ret (set_state PNone L)
            end)
      end
  end.

(** One iteration of the [for message in messages] loop. *)
Definition handle (delimiter quotechar destination_path : string)
    (fixed_headers : option (gmap string (list string)))
    (l : line) (L : locals) : io locals :=
  match l with
  | Garbled => raise JSONDecodeError
  | Unrecognised => raise AttributeError
  | Malformed => raise MessageError
  | Decoded (RECORD stream record) =>
      process_record delimiter quotechar destination_path fixed_headers stream record L
  | Decoded (STATE value) => ret (set_state value L)
  | Decoded (SCHEMA stream schema key_props) => ret (declare stream schema key_props L)
  | Decoded (ACTIVATE_VERSION _ _) => ret L
  end.

Fixpoint loop (delimiter quotechar destination_path : string)
    (fixed_headers : option (gmap string (list string)))
    (messages : list line) (L : locals) : io locals :=
  match messages with
  | [] => ret L
  | l :: rest =>
      L' <-- handle delimiter quotechar destination_path fixed_headers l L ;;
      loop delimiter quotechar destination_path fixed_headers rest L'
  end.

(** *** The transfer, lines 114 to 133 *)

Definition client_connect (hostname username password : pyval) : io unit :=
  fun w => let ok := connect_ok P hostname username password in
           (if ok then inr tt else inl ConnectFailed,
            log_sftp (Connect hostname username password ok) w).

Definition client_open_sftp : io unit :=
  fun w => let ok := open_sftp_ok P in
           (if ok then inr tt else inl OpenSftpFailed, log_sftp (OpenSftp ok) w).

(** [sftp.put(localpath, remotepath)]: the local file is opened first. *)
Definition sftp_put (localpath remotepath : string) : io unit :=
  fun w => match fs w !! localpath with
           | None => (inl (OSError localpath), log_sftp (Put localpath remotepath false) w)
           | Some text =>
               let ok := put_ok P localpath remotepath text in
               (if ok then inr tt else inl (PutFailed localpath),
                log_sftp (Put localpath remotepath ok) w)
           end.

Definition sftp_close : io unit := fun w => (inr tt, log_sftp SftpClose w).
Definition client_close : io unit := fun w => (inr tt, log_sftp ClientClose w).

(** [for filename in stream_2_filenames.values(): sftp.put(filename, filename)] *)
Fixpoint put_all (filenames : list string) : io unit :=
  match filenames with
  | [] => ret tt
  | filename :: rest => sftp_put filename filename ;;; put_all rest
  end.

(** The [try] block: its outcome together with [sftp] and [client] as
    they stand when the block is left. *)
Definition transfer_try (sftp_host sftp_username sftp_password : pyval)
    (filenames : list string) (w : world) : (exn + unit) * session * world :=
  match client_connect sftp_host sftp_username sftp_password w with
  | (inl e, w1) => (inl e, Session false true, w1)
  | (inr _, w1) =>
      match client_open_sftp w1 with
      | (inl e, w2) => (inl e, Session false true, w2)
      | (inr _, w2) =>
          let '(r, w3) := put_all filenames w2 in (r, Session true true, w3)
      end
  end.

(** [try: ... except Exception as e: ... raise e  else: ...] *)
Definition transfer (sftp_host sftp_username sftp_password : pyval)
    (filenames : list string) : io unit :=
  fun w =>
    match transfer_try sftp_host sftp_username sftp_password filenames w with
    | (inl e, s, w') =>
        ((if sftp s then sftp_close else ret tt) ;;;
         (if client s then client_close else ret tt) ;;;
         raise e) w'
    | (inr _, _, w') => (sftp_close ;;; client_close) w'
    end.

Definition persist_messages (delimiter quotechar : string) (messages : list line)
    (destination_path : string)
    (fixed_headers : option (gmap string (list string)))
    (sftp_host sftp_username sftp_password sftp_port
     sftp_public_key sftp_public_key_format : pyval) : io pyval :=
  L <-- loop delimiter quotechar destination_path fixed_headers
          messages initial_locals ;;
  (if truthy sftp_host && truthy sftp_password && truthy sftp_username
      && truthy sftp_public_key && truthy sftp_public_key_format
   then transfer sftp_host sftp_username sftp_password
          (od_values (stream_2_filenames L))
   else ret tt) ;;;
  ret (state L).

(** *** Checkpoint emission and [main] *)

Definition emit_state (state : pyval) : io unit :=
  match state with
  | PNone => ret tt
  | _ =>
      let line := json_dumps P state in
      fun w => (inr tt, log_out StdoutFlush (log_out (StdoutWrite (line +:+ newline)) w))
  end.

Definition main (cfg : config) (input_messages : list line) : io unit :=
  state <-- persist_messages
              (default "," (cfg_delimiter cfg))
              (default dquote (cfg_quotechar cfg))
              input_messages
              (default "" (cfg_destination_path cfg))
              (cfg_fixed_headers cfg)
              (default PNone (cfg_sftp_host cfg))
              (default PNone (cfg_sftp_username cfg))
              (default PNone (cfg_sftp_password cfg))
              (default PNone (cfg_sftp_port cfg))
              (default PNone (cfg_sftp_public_key cfg))
              (default PNone (cfg_sftp_public_key_format cfg)) ;;
  emit_state state.


(** The message loop with the arguments [main] passes to [persist_messages]. *)
Definition consume (cfg : config) (messages : list line) : io locals :=
  loop (default "," (cfg_delimiter cfg)) (default dquote (cfg_quotechar cfg))
       (default "" (cfg_destination_path cfg)) (cfg_fixed_headers cfg)
       messages initial_locals.

(** *** Vocabulary of the specification *)

Definition is_record (l : line) : bool :=
  match l with Decoded (RECORD _ _) => true | _ => false end.

Definition is_state (l : line) : bool :=
  match l with Decoded (STATE _) => true | _ => false end.

(** [l] is a RECORD message of stream [S]. *)
Definition record_of (S : string) (l : line) : bool :=
  match l with Decoded (RECORD s _) => bool_decide (s = S) | _ => false end.

(** [l] is a SCHEMA message of stream [S]. *)
Definition schema_of (S : string) (l : line) : bool :=
  match l with Decoded (SCHEMA s _ _) => bool_decide (s = S) | _ => false end.

(** [v] is the payload of a STATE message that no RECORD and no other
    STATE message follows. *)
Definition pending (v : pyval) (messages : list line) : Prop :=
  exists before after,
    messages = before ++ Decoded (STATE v) :: after
    /\ forallb (fun l => negb (is_record l) && negb (is_state l)) after = true.

(** The schema of the last SCHEMA message of stream [S], if any. *)
Fixpoint last_schema (S : string) (messages : list line) : option pyval :=
  match messages with
  | [] => None
  | l :: rest =>
      match last_schema S rest with
      | Some schema => Some schema
      | None =>
          match l with
          | Decoded (SCHEMA s schema _) => if decide (s = S) then Some schema else None
          | _ => None
          end
      end
  end.

(** A line with the key properties of a SCHEMA message blanked. *)
Definition forget_key_props (l : line) : line :=
  match l with
  | Decoded (SCHEMA s schema _) => Decoded (SCHEMA s schema PNone)
  | _ => l
  end.

(** Apply [f] to the value of an outcome that is not an exception. *)
Definition on_success {A B} (f : A -> B) (o : (exn + A) * world) : (exn + B) * world :=
  (match fst o with inl e => inl e | inr a => inr (f a) end, snd o).

(** The locals without the [key_properties] dictionary. *)
Definition without_key_properties (L : locals) : locals :=
  Locals (state L) (schemas L) (stream_2_filenames L) ∅ (headers L) (validators L).

(** *** Proof tools *)

Ltac io_unfold :=
  unfold when_not in *;
  unfold bind, ret, raise, stat_is_empty, read_first_row in *.

Section Run.
Variables (delimiter quotechar destination_path : string).
Variable fixed_headers : option (gmap string (list string)).

Local Abbreviation run := (loop delimiter quotechar destination_path fixed_headers).
Local Abbreviation step := (handle delimiter quotechar destination_path fixed_headers).
Local Abbreviation on_record :=
  (process_record delimiter quotechar destination_path fixed_headers).
Local Abbreviation dest := (destination destination_path).

Lemma str_app_assoc (a b c : string) : (a +:+ b) +:+ c = a +:+ (b +:+ c).
Proof.
  induction a as [|x a IH]; [done|].
  change (String x ((a +:+ b) +:+ c) = String x (a +:+ (b +:+ c))). by rewrite IH.
Qed.

Lemma str_app_nil_r (a : string) : a +:+ "" = a.
Proof.
  induction a as [|x a IH]; [done|].
  change (String x (a +:+ "") = String x a). by rewrite IH.
Qed.

(** The ways the [with open(filename, 'a')] block can end: with header and
    row appended; with [open] refused and nothing touched; or with an
    exception of the csv writer after the file was opened, and maybe after
    the header row was written. *)
Lemma write_record_cases p fieldnames empty r w :
  write_record delimiter quotechar p fieldnames empty r w
  = (inr tt,
     with_fs (<[p := default "" (fs w !! p)
                     +:+ ((if empty then writeheader delimiter quotechar fieldnames else "")
                          +:+ writerow delimiter quotechar fieldnames r)]> (fs w)) w)
  \/ write_record delimiter quotechar p fieldnames empty r w = (inl (OSError p), w)
  \/ exists e added,
       (e = TypeError \/ e = CsvError p)
       /\ write_record delimiter quotechar p fieldnames empty r w
          = (inl e, with_fs (<[p := default "" (fs w !! p) +:+ added]> (fs w)) w).
Proof.
  unfold write_record, open_append, write_cells, bind, when_not, ret, raise,
    writeheader, writerow, with_fs.
  destruct (can_append P p); [|by right; left]. simpl.
  destruct (csv_dialect_ok P delimiter quotechar).
  2:{ right; right. exists TypeError, "". rewrite str_app_nil_r. by split; [left|]. }
  destruct empty; simpl.
  - destruct (csv_row_ok P delimiter quotechar (map PStr fieldnames)).
    2:{ right; right. exists (CsvError p), "". rewrite str_app_nil_r.
        by split; [right|]. }
    simpl. rewrite !lookup_insert_eq. simpl.
    destruct (csv_row_ok P delimiter quotechar (dict_to_list fieldnames r)).
    + left. by rewrite !insert_insert_eq, str_app_assoc.
    + right; right.
      exists (CsvError p), (csv_writerow P delimiter quotechar (map PStr fieldnames)).
      split; [by right|]. by rewrite !insert_insert_eq.
  - rewrite !lookup_insert_eq. simpl.
    destruct (csv_row_ok P delimiter quotechar (dict_to_list fieldnames r)).
    + left. by rewrite !insert_insert_eq.
    + right; right. exists (CsvError p), "". rewrite str_app_nil_r.
      by split; [right|].
Qed.

Ltac write_cases H :=
  match type of H with
  | context [write_record _ _ ?p ?h ?b ?r ?w] =>
      let E := fresh "E" in
      destruct (write_record_cases p h b r w)
        as [E|[E|(?e0 & ?added & ?He0 & E)]];
      rewrite E in H; clear E; simpl in H
  end.

Lemma loop_app a b L w :
  run (a ++ b) L w =
  match run a L w with
  | (inl e, w') => (inl e, w')
  | (inr L', w') => run b L' w'
  end.
Proof.
  revert L w. induction a as [|l a IH]; intros L w; simpl; [done|].
  unfold bind. destruct (step l L w) as [[e|L1] w1]; [done|]. apply IH.
Qed.

Lemma loop_cons l rest L w :
  run (l :: rest) L w =
  match step l L w with
  | (inl e, w') => (inl e, w')
  | (inr L', w') => run rest L' w'
  end.
Proof. reflexivity. Qed.

(** What a RECORD that is processed without error does. *)
Lemma process_record_inv S r L w L' w' :
  on_record S r L w = (inr L', w') ->
  exists hdr,
    is_Some (schemas L !! S)
    /\ headers L' = <[S := hdr]> (headers L)
    /\ state L' = PNone
    /\ schemas L' = schemas L
    /\ validators L' = validators L
    /\ stream_2_filenames L' = od_set S (stream_filename S) (stream_2_filenames L)
    /\ w' = with_fs
              (<[dest S :=
                   default "" (fs w !! dest S)
                   +:+ ((if empty_or_missing (fs w) (dest S)
                         then writeheader delimiter quotechar hdr else "")
                        +:+ writerow delimiter quotechar hdr r)]> (fs w)) w
    /\ (forall fixed, fixed_entry fixed_headers S = Some fixed ->
          hdr = default fixed (headers L !! S))
    /\ (fixed_entry fixed_headers S = None ->
          empty_or_missing (fs w) (dest S) = true \/ is_Some (headers L !! S) ->
          hdr = od_keys r).
Proof.
  unfold process_record, resolve_headers, destination. intros H.
  destruct (schemas L !! S) as [sch0|] eqn:Hs; [|discriminate].
  destruct (validators L !! S) as [sch|] eqn:Hv; [|discriminate].
  io_unfold.
  destruct (schema_accepts P sch r); [|discriminate].
  set (p := expanduser (path_join destination_path (stream_filename S))) in *.
  destruct (fixed_entry fixed_headers S) as [fixed|] eqn:Hf.
  - simpl in H. destruct (headers L !! S) as [h0|] eqn:Hh; simpl in H.
    + rewrite Hh in H. write_cases H; [|discriminate|discriminate].
      simplify_eq. exists h0. simpl.
      rewrite insert_id by done. split_and!; try done; eauto.
      all: try (intros; simplify_eq; done).
    + rewrite lookup_insert_eq in H. write_cases H; [|discriminate|discriminate].
      simplify_eq. exists fixed. simpl. split_and!; try done; eauto.
      all: try (intros; simplify_eq; done).
  - simpl in H.
    destruct (bool_decide (headers L !! S = None) && negb (empty_or_missing (fs w) p)) eqn:Hc.
    + apply andb_prop in Hc as [Hn He]. apply bool_decide_eq_true in Hn.
      apply negb_true_iff in He.
      destruct (fs w !! p) as [text|] eqn:Hp; [|discriminate].
      destruct (csv_first_row P delimiter quotechar text) as [first_line|]; [|discriminate].
      simpl in H. rewrite lookup_insert_eq in H.
      write_cases H; [|discriminate|discriminate].
      simplify_eq. eexists. simpl. rewrite ?Hp. simpl.
      split_and!; try done; eauto.
      intros _ [Hq|[? Hq]]; congruence.
    + simpl in H. rewrite lookup_insert_eq in H.
      write_cases H; [|discriminate|discriminate].
      simplify_eq. exists (od_keys r). simpl. split_and!; try done; eauto.
Qed.

(** A RECORD on which the loop raises changes at most its own destination
    file, and only by opening it for append. *)
Lemma process_record_err S r L w e w' :
  on_record S r L w = (inl e, w') ->
  w' = w
  \/ exists added,
       (e = TypeError \/ e = CsvError (dest S))
       /\ w' = with_fs (<[dest S := default "" (fs w !! dest S) +:+ added]> (fs w)) w.
Proof.
  unfold process_record, resolve_headers, destination. intros H. io_unfold.
  destruct (schemas L !! S) as [sch0|]; [|simpl in H; left; by simplify_eq].
  destruct (validators L !! S) as [sch|]; [|simpl in H; left; by simplify_eq].
  destruct (schema_accepts P sch r); [|simpl in H; left; by simplify_eq].
  set (p := expanduser _) in *.
  destruct (fixed_entry fixed_headers S) as [fixed|].
  - simpl in H. destruct (headers L !! S) as [h0|] eqn:Hh; simpl in H.
    + rewrite Hh in H. write_cases H; simplify_eq; [by left|by right; eexists].
    + rewrite lookup_insert_eq in H.
      write_cases H; simplify_eq; [by left|by right; eexists].
  - simpl in H.
    destruct (bool_decide (headers L !! S = None) && negb (empty_or_missing (fs w) p)).
    + destruct (fs w !! p) as [text|] eqn:Hp; [|simpl in H; left; by simplify_eq].
      destruct (csv_first_row P delimiter quotechar text);
        [|simpl in H; left; by simplify_eq].
      simpl in H. rewrite lookup_insert_eq in H.
      write_cases H; simplify_eq; [by left|right; eexists; by rewrite Hp].
    + simpl in H. rewrite lookup_insert_eq in H.
      write_cases H; simplify_eq; [by left|by right; eexists].
Qed.

Lemma handle_traces l L w res w' :
  step l L w = (res, w') ->
  sftp_log w' = sftp_log w /\ stdout w' = stdout w.
Proof.
  destruct l as [[S r|v|S sch kp|t ver]| | |]; simpl; intros H;
    try (unfold ret, raise in H; by simplify_eq).
  destruct res as [e|L'].
  - by apply process_record_err in H as [->|(added & _ & ->)].
  - apply process_record_inv in H as (hdr & _ & _ & _ & _ & _ & _ & -> & _). done.
Qed.

Lemma loop_traces messages L w res w' :
  run messages L w = (res, w') ->
  sftp_log w' = sftp_log w /\ stdout w' = stdout w.
Proof.
  revert L w. induction messages as [|l rest IH]; intros L w; simpl.
  - unfold ret. by intros [= <- <-].
  - unfold bind. destruct (step l L w) as [[e|L1] w1] eqn:Hl; intros H.
    + simplify_eq. by eapply handle_traces.
    + apply IH in H as [-> ->]. by eapply handle_traces.
Qed.

(** Only a SCHEMA message of stream [S] changes the schema registered for [S]. *)
Lemma handle_schemas S l L w L' w' :
  step l L w = (inr L', w') -> schema_of S l = false ->
  schemas L' !! S = schemas L !! S.
Proof.
  destruct l as [[s r|v|s sch kp|t ver]| | |]; simpl; intros H Hs;
    try (unfold ret, raise in H; by simplify_eq).
  - apply process_record_inv in H as (hdr & _ & _ & _ & -> & _). done.
  - unfold ret in H. simplify_eq. simpl.
    apply bool_decide_eq_false in Hs. by rewrite lookup_insert_ne.
Qed.

Lemma loop_schemas S messages L w L' w' :
  run messages L w = (inr L', w') -> existsb (schema_of S) messages = false ->
  schemas L' !! S = schemas L !! S.
Proof.
  revert L w. induction messages as [|l rest IH]; intros L w; simpl.
  - unfold ret. by intros [= <- <-].
  - unfold bind. destruct (step l L w) as [[e|L1] w1] eqn:Hl; [done|].
    intros H [Hl' Hrest]%orb_false_elim.
    rewrite (IH _ _ H Hrest). by eapply handle_schemas.
Qed.

(** A RECORD of a stream with no registered schema raises and changes nothing. *)
Lemma process_record_unknown S r L w :
  schemas L !! S = None ->
  on_record S r L w = (inl (RecordBeforeSchema S), w).
Proof. unfold process_record. by intros ->. Qed.

(** The checkpoint variable through the loop. *)
Lemma handle_state l L w L' w' :
  step l L w = (inr L', w') ->
  state L' = match l with
             | Decoded (RECORD _ _) => PNone
             | Decoded (STATE v) => v
             | _ => state L
             end.
Proof.
  destruct l as [[s r|v|s sch kp|t ver]| | |]; simpl; intros H;
    try (unfold ret, raise in H; by simplify_eq).
  by apply process_record_inv in H as (hdr & _ & _ & -> & _).
Qed.

Lemma loop_quiet messages L w L' w' :
  run messages L w = (inr L', w') ->
  forallb (fun l => negb (is_record l) && negb (is_state l)) messages = true ->
  state L' = state L.
Proof.
  revert L w. induction messages as [|l rest IH]; intros L w; simpl.
  - unfold ret. by intros [= <- <-].
  - unfold bind. destruct (step l L w) as [[e|L1] w1] eqn:Hl; [done|].
    intros H [Hq Hrest]%andb_prop.
    rewrite (IH _ _ H Hrest). apply handle_state in Hl as ->.
    by destruct l as [[]| | |].
Qed.

Lemma loop_pending v messages L w L' w' :
  run messages L w = (inr L', w') -> pending v messages -> state L' = v.
Proof.
  intros H (before & after & -> & Hq).
  rewrite loop_app in H.
  destruct (run before L w) as [[e|L1] w1]; [done|].
  rewrite loop_cons in H. simpl in H. unfold ret in H.
  by apply loop_quiet in H.
Qed.

Lemma loop_state_cases messages L w L' w' :
  run messages L w = (inr L', w') ->
  state L' = PNone
  \/ pending (state L') messages
  \/ (state L' = state L
      /\ forallb (fun l => negb (is_record l) && negb (is_state l)) messages = true).
Proof.
  revert L w. induction messages as [|l rest IH]; intros L w; simpl.
  - unfold ret. intros [= <- <-]. by right; right.
  - unfold bind. destruct (step l L w) as [[e|L1] w1] eqn:Hl; [done|].
    intros H. destruct (IH _ _ H) as [Hn|[(before & after & -> & Hq)|[He Hq]]].
    + by left.
    + right; left. by exists (l :: before), after.
    + apply handle_state in Hl. rewrite He, Hl.
      destruct l as [[s r|v|s sch kp|t ver]| | |]; simpl.
      * by left.
      * right; left. by exists [], rest.
      * by right; right.
      * by right; right.
      * by right; right.
      * by right; right.
      * by right; right.
Qed.

(** Ordered dictionaries. *)
Lemma od_get_set_eq {V} k (v : V) d : od_get k (od_set k v d) = Some v.
Proof.
  induction d as [|[k' v'] d IH]; simpl.
  - by rewrite decide_True.
  - destruct (decide (k' = k)) as [->|Hne]; simpl.
    + by rewrite decide_True.
    + by rewrite decide_False.
Qed.

Lemma od_get_set_ne {V} k k' (v : V) d :
  k <> k' -> od_get k' (od_set k v d) = od_get k' d.
Proof.
  intros Hne. induction d as [|[k0 v0] d IH]; simpl.
  - by rewrite decide_False.
  - destruct (decide (k0 = k)) as [->|Hk]; simpl.
    + by rewrite !decide_False.
    + by rewrite IH.
Qed.

Lemma od_set_In {V} k (v : V) d k' v' :
  In (k', v') (od_set k v d) -> (k' = k /\ v' = v) \/ In (k', v') d.
Proof.
  induction d as [|[k0 v0] d IH]; simpl.
  - intros [[= <- <-]|[]]. by left.
  - destruct (decide (k0 = k)) as [->|Hk]; simpl.
    + intros [[= <- <-]|H]; [by left|by right; right].
    + intros [H|H]; [by right; left|]. destruct (IH H); [by left|by right; right].
Qed.

Lemma od_get_In {V} k (v : V) d : od_get k d = Some v -> In (k, v) d.
Proof.
  induction d as [|[k0 v0] d IH]; simpl; [done|].
  destruct (decide (k0 = k)) as [->|Hk].
  - intros [= ->]. by left.
  - intros H. right. by apply IH.
Qed.

Lemma od_In_get {V} k (v : V) d : In (k, v) d -> is_Some (od_get k d).
Proof.
  induction d as [|[k0 v0] d IH]; simpl; [done|].
  destruct (decide (k0 = k)) as [->|Hk]; [by eauto|].
  intros [[= -> ->]|H]; [done|by apply IH].
Qed.

Lemma od_keys_set_In {V} k (v : V) d k' :
  In k' (od_keys (od_set k v d)) -> k' = k \/ In k' (od_keys d).
Proof.
  unfold od_keys. intros ((k0 & v0) & <- & H)%in_map_iff.
  apply od_set_In in H as [[-> _]|H]; [by left|right].
  apply in_map_iff. by exists (k0, v0).
Qed.

Lemma od_set_NoDup {V} k (v : V) d :
  List.NoDup (od_keys d) -> List.NoDup (od_keys (od_set k v d)).
Proof.
  induction d as [|[k0 v0] d IH]; simpl.
  - intros _. repeat constructor. by intros [].
  - intros Hnd. apply List.NoDup_cons_iff in Hnd as [Hin Hnd].
    destruct (decide (k0 = k)) as [->|Hk]; simpl.
    + by constructor.
    + constructor; [|by apply IH].
      intros [->|H]%od_keys_set_In; done.
Qed.

(** The file name of a stream determines the stream. *)
Lemma append_length a b : String.length (a +:+ b) = String.length a + String.length b.
Proof. induction a as [|c a IH]; simpl; [done|]. by rewrite IH. Qed.

Lemma append_cancel_r a b t : a +:+ t = b +:+ t -> a = b.
Proof.
  revert b. induction a as [|c a IH]; intros [|c' b] H; simpl in *.
  - done.
  - apply (f_equal String.length) in H. rewrite !append_length in H. simpl in H. lia.
  - apply (f_equal String.length) in H. rewrite !append_length in H. simpl in H. lia.
  - injection H as -> H. f_equal. by apply IH.
Qed.

Lemma stream_filename_inj s1 s2 : stream_filename s1 = stream_filename s2 -> s1 = s2.
Proof. unfold stream_filename. apply append_cancel_r. Qed.

(** The transfer manifest through the loop. *)
Lemma handle_manifest l L w L' w' :
  step l L w = (inr L', w') ->
  stream_2_filenames L' =
  match l with
  | Decoded (RECORD s _) => od_set s (stream_filename s) (stream_2_filenames L)
  | _ => stream_2_filenames L
  end.
Proof.
  destruct l as [[s r|v|s sch kp|t ver]| | |]; simpl; intros H;
    try (unfold ret, raise in H; by simplify_eq).
  by apply process_record_inv in H as (hdr & _ & _ & _ & _ & _ & -> & _).
Qed.

Lemma loop_manifest_get S messages L w L' w' :
  run messages L w = (inr L', w') ->
  od_get S (stream_2_filenames L') =
  if existsb (record_of S) messages then Some (stream_filename S)
  else od_get S (stream_2_filenames L).
Proof.
  revert L w. induction messages as [|l rest IH]; intros L w; simpl.
  - unfold ret. by intros [= <- <-].
  - unfold bind. destruct (step l L w) as [[e|L1] w1] eqn:Hl; [done|].
    intros H. rewrite (IH _ _ H). apply handle_manifest in Hl.
    destruct (existsb (record_of S) rest); [by rewrite orb_true_r|].
    rewrite orb_false_r, Hl.
    destruct l as [[s r|v|s sch kp|t ver]| | |]; simpl; try done.
    case_bool_decide as Hs.
    + subst s. apply od_get_set_eq.
    + by apply od_get_set_ne.
Qed.

Lemma loop_manifest_shape messages L w L' w' :
  run messages L w = (inr L', w') ->
  (forall k f, In (k, f) (stream_2_filenames L) -> f = stream_filename k) ->
  List.NoDup (od_keys (stream_2_filenames L)) ->
  (forall k f, In (k, f) (stream_2_filenames L') -> f = stream_filename k)
  /\ List.NoDup (od_keys (stream_2_filenames L')).
Proof.
  revert L w. induction messages as [|l rest IH]; intros L w; simpl.
  - unfold ret. by intros [= <- <-].
  - unfold bind. destruct (step l L w) as [[e|L1] w1] eqn:Hl; [done|].
    intros H Hshape Hnd. apply handle_manifest in Hl.
    apply (IH _ _ H); rewrite Hl; destruct l as [[s r|v|s sch kp|t ver]| | |]; try done.
    + intros k f [[-> ->]|Hin]%od_set_In; [done|by apply Hshape].
    + by apply od_set_NoDup.
Qed.

(** Files that no RECORD of the run is destined to are left as they were. *)
Lemma handle_frame p l L w res w' :
  step l L w = (res, w') ->
  (forall s r, l = Decoded (RECORD s r) -> dest s <> p) ->
  fs w' !! p = fs w !! p.
Proof.
  destruct l as [[s r|v|s sch kp|t ver]| | |]; simpl; intros H Hp;
    try (unfold ret, raise in H; by simplify_eq).
  destruct res as [e|L'].
  - apply process_record_err in H as [->|(added & _ & ->)]; [done|].
    simpl. rewrite lookup_insert_ne; [done|]. by apply (Hp s r).
  - apply process_record_inv in H as (hdr & _ & _ & _ & _ & _ & _ & -> & _).
    simpl. rewrite lookup_insert_ne; [done|]. by apply (Hp s r).
Qed.

Lemma loop_frame p messages L w res w' :
  run messages L w = (res, w') ->
  (forall s r, In (Decoded (RECORD s r)) messages -> dest s <> p) ->
  fs w' !! p = fs w !! p.
Proof.
  revert L w. induction messages as [|l rest IH]; intros L w; simpl.
  - unfold ret. by intros [= <- <-].
  - unfold bind. destruct (step l L w) as [[e|L1] w1] eqn:Hl; intros H Hp.
    + simplify_eq. eapply handle_frame; [done|]. intros s r ->. apply (Hp s r). by left.
    + rewrite (IH _ _ H); [|by intros s r Hin; apply (Hp s r); right].
      eapply handle_frame; [done|]. intros s r ->. apply (Hp s r). by left.
Qed.

(** A file whose text the loop changed is the destination of a RECORD. *)
Lemma handle_changes p l L w res w' :
  step l L w = (res, w') ->
  fs w' !! p <> fs w !! p ->
  exists s r, l = Decoded (RECORD s r) /\ dest s = p.
Proof.
  intros H Hne.
  destruct l as [[s r|v|s sch kp|t ver]| | |];
    try (exfalso; apply Hne; eapply handle_frame; [exact H|by intros]).
  destruct (decide (dest s = p)) as [Heq|Hp]; [by exists s, r|].
  exfalso. apply Hne. eapply handle_frame; [exact H|]. by intros s' r' [= <- _].
Qed.

Lemma loop_changes p messages L w res w' :
  run messages L w = (res, w') ->
  fs w' !! p <> fs w !! p ->
  exists s r, In (Decoded (RECORD s r)) messages /\ dest s = p.
Proof.
  revert L w. induction messages as [|l rest IH]; intros L w; simpl.
  - unfold ret. intros [= <- <-] Hne. done.
  - unfold bind. destruct (step l L w) as [[e|L1] w1] eqn:Hl; intros H Hne.
    + simplify_eq.
      destruct (handle_changes _ _ _ _ _ _ Hl Hne) as (s & r & -> & Hp).
      exists s, r. split; [by left|done].
    + destruct (decide (fs w1 !! p = fs w !! p)) as [Heq|Hne1].
      * rewrite <- Heq in Hne.
        destruct (IH _ _ H Hne) as (s & r & Hin & Hp).
        exists s, r. split; [by right|done].
      * destruct (handle_changes _ _ _ _ _ _ Hl Hne1) as (s & r & -> & Hp).
        exists s, r. split; [by left|done].
Qed.

(** Files only grow. *)
Lemma handle_append_only p old l L w res w' :
  step l L w = (res, w') -> fs w !! p = Some old ->
  exists added, fs w' !! p = Some (old +:+ added).
Proof.
  intros H Hold.
  assert (w' = w -> exists added, fs w' !! p = Some (old +:+ added)) as Hsame.
  { intros ->. exists "". by rewrite str_app_nil_r. }
  assert (forall s text,
            w' = with_fs (<[dest s := default "" (fs w !! dest s) +:+ text]> (fs w)) w ->
            exists added, fs w' !! p = Some (old +:+ added)) as Hgrown.
  { intros s text ->. simpl. destruct (decide (dest s = p)) as [<-|Hne].
    - rewrite lookup_insert_eq, Hold. simpl. by eexists.
    - rewrite lookup_insert_ne by done. exists "". by rewrite str_app_nil_r. }
  destruct l as [[s r|v|s sch kp|t ver]| | |]; simpl in H;
    try (unfold ret, raise in H; apply Hsame; by simplify_eq).
  destruct res as [e|L'].
  - apply process_record_err in H as [->|(added & _ & ->)]; [by apply Hsame|].
    by eapply Hgrown.
  - apply process_record_inv in H as (hdr & _ & _ & _ & _ & _ & _ & -> & _).
    by eapply Hgrown.
Qed.

Lemma loop_append_only p old messages L w res w' :
  run messages L w = (res, w') -> fs w !! p = Some old ->
  exists added, fs w' !! p = Some (old +:+ added).
Proof.
  revert L w old. induction messages as [|l rest IH]; intros L w old; simpl.
  - unfold ret. intros [= <- <-] Hold. exists "". by rewrite str_app_nil_r.
  - unfold bind. destruct (step l L w) as [[e|L1] w1] eqn:Hl; intros H Hold.
    + simplify_eq. by eapply handle_append_only.
    + destruct (handle_append_only _ _ _ _ _ _ _ Hl Hold) as [a1 H1].
      destruct (IH _ _ _ H H1) as [a2 H2].
      exists (a1 +:+ a2). by rewrite <- str_app_assoc.
Qed.

(** The row of every RECORD that was processed is in its destination file. *)
Lemma loop_row_written S r messages L w L' w' :
  run messages L w = (inr L', w') ->
  In (Decoded (RECORD S r)) messages ->
  exists fieldnames earlier later,
    fs w' !! dest S
    = Some (earlier +:+ writerow delimiter quotechar fieldnames r +:+ later).
Proof.
  intros H (before & after & ->)%in_split.
  rewrite loop_app in H.
  destruct (run before L w) as [[e|L1] w1]; [done|].
  rewrite loop_cons in H.
  destruct (step (Decoded (RECORD S r)) L1 w1) as [[e|L2] w2] eqn:Hstep; [done|].
  simpl in Hstep.
  apply process_record_inv in Hstep as (hdr & _ & _ & _ & _ & _ & _ & -> & _).
  edestruct (loop_append_only (dest S)) as [later Hlater];
    [exact H|simpl; apply lookup_insert_eq|].
  eexists hdr, _, later. rewrite Hlater. by rewrite <- !str_app_assoc.
Qed.

Lemma loop_written S r messages L w L' w' :
  run messages L w = (inr L', w') ->
  In (Decoded (RECORD S r)) messages ->
  is_Some (fs w' !! dest S).
Proof.
  intros H Hin.
  destruct (loop_row_written _ _ _ _ _ _ _ H Hin) as (h & a & b & ->). by eexists.
Qed.

(** A stream with a fixed header list never gets another one. *)
Lemma handle_fixed S h l L w L' w' :
  fixed_entry fixed_headers S = Some h ->
  step l L w = (inr L', w') ->
  headers L !! S = None \/ headers L !! S = Some h ->
  headers L' !! S = None \/ headers L' !! S = Some h.
Proof.
  intros Hfix.
  destruct l as [[s r|v|s sch kp|t ver]| | |]; simpl; intros H Hinv;
    try (unfold ret, raise in H; by simplify_eq).
  apply process_record_inv in H as (hdr & _ & -> & _ & _ & _ & _ & _ & Hhdr & _).
  destruct (decide (s = S)) as [->|Hne].
  - right. rewrite lookup_insert_eq. rewrite (Hhdr _ Hfix).
    by destruct Hinv as [->| ->].
  - by rewrite lookup_insert_ne.
Qed.

Lemma loop_fixed S h messages L w L' w' :
  fixed_entry fixed_headers S = Some h ->
  run messages L w = (inr L', w') ->
  headers L !! S = None \/ headers L !! S = Some h ->
  headers L' !! S = None \/ headers L' !! S = Some h.
Proof.
  intros Hfix. revert L w. induction messages as [|l rest IH]; intros L w; simpl.
  - unfold ret. by intros [= <- <-].
  - unfold bind. destruct (step l L w) as [[e|L1] w1] eqn:Hl; [done|].
    intros H Hinv. apply (IH _ _ H). by eapply handle_fixed.
Qed.

(** C4 (amended): when no fixed header list is configured for the stream
    and the destination file is missing or empty at the moment a record is
    appended, the file afterwards holds exactly a header row made of the
    record's field names in insertion order, followed by the record's row;
    when the file is not empty at that moment (whatever the configuration),
    exactly one row is appended to the old text and no header row. *)
Theorem fresh_file_gets_record_header S r L w L' w' :
  process_record delimiter quotechar destination_path fixed_headers S r L w
  = (inr L', w') ->
  let filename := destination destination_path S in
  (fixed_entry fixed_headers S = None ->
   empty_or_missing (fs w) filename = true ->
   fs w' !! filename =
   Some (writeheader delimiter quotechar (od_keys r)
         +:+ writerow delimiter quotechar (od_keys r) r))
  /\ (empty_or_missing (fs w) filename = false ->
      exists old hdr,
        fs w !! filename = Some old
        /\ headers L' !! S = Some hdr
        /\ fs w' !! filename = Some (old +:+ writerow delimiter quotechar hdr r)).
Proof.
  intros H filename. unfold filename.
  apply process_record_inv in H
    as (hdr & _ & Hh & _ & _ & _ & _ & -> & _ & Hkeys).
  split.
  - intros Hnone Hempty. simpl. rewrite lookup_insert_eq, Hempty.
    rewrite (Hkeys Hnone (or_introl Hempty)).
    unfold empty_or_missing in Hempty.
    destruct (fs w !! dest S) as [text|]; [|done].
    apply String.eqb_eq in Hempty as ->. done.
  - intros Hfull. unfold empty_or_missing in *.
    destruct (fs w !! dest S) as [text|] eqn:Hp; [|done].
    exists text, hdr. rewrite Hh, lookup_insert_eq. simpl.
    by rewrite lookup_insert_eq, Hfull.
Qed.

(** C5: when [fixed_headers] has an entry [h] for stream [S], then in every
    run, whatever files exist beforehand and whatever the earlier messages
    and the record's own fields are, a RECORD of [S] is written under [h]:
    the header row (written when the file is missing or empty) is [h], the
    record's row is laid out by [h], and [h] stays the cached header list. *)
Theorem fixed_headers_govern_rows S h messages r w0 L' w' :
  fixed_entry fixed_headers S = Some h ->
  loop delimiter quotechar destination_path fixed_headers
    (messages ++ [Decoded (RECORD S r)]) initial_locals w0 = (inr L', w') ->
  let filename := destination destination_path S in
  exists L w,
    loop delimiter quotechar destination_path fixed_headers messages
      initial_locals w0 = (inr L, w)
    /\ headers L' !! S = Some h
    /\ fs w' !! filename =
       Some (default "" (fs w !! filename)
             +:+ ((if empty_or_missing (fs w) filename
                   then writeheader delimiter quotechar h else "")
                  +:+ writerow delimiter quotechar h r)).
Proof.
  intros Hfix H filename. unfold filename. rewrite loop_app in H.
  destruct (run messages initial_locals w0) as [[e|L] w] eqn:Hrun; [done|].
  exists L, w. split; [done|].
  rewrite loop_cons in H.
  destruct (step (Decoded (RECORD S r)) L w) as [[e|L1] w1] eqn:Hstep; [done|].
  unfold loop, ret in H. simplify_eq. simpl in Hstep.
  apply process_record_inv in Hstep
    as (hdr & _ & Hh & _ & _ & _ & _ & -> & Hhdr & _).
  assert (hdr = h) as ->.
  { rewrite (Hhdr _ Hfix).
    destruct (loop_fixed S h _ _ _ _ _ Hfix Hrun) as [-> | ->]; try done.
    by left. }
  rewrite Hh, lookup_insert_eq. simpl. by rewrite lookup_insert_eq.
Qed.

End Run.

(** *** The transfer *)

Lemma put_all_spec filenames w :
  put_all filenames w
  = (inr tt, World (fs w) (sftp_log w ++ map (fun f => Put f f true) filenames) (stdout w))
  \/ exists e copied failed remaining,
       filenames = copied ++ failed :: remaining
       /\ put_all filenames w
          = (inl e, World (fs w)
                      (sftp_log w ++ map (fun f => Put f f true) copied
                                  ++ [Put failed failed false])
                      (stdout w)).
Proof.
  revert w. induction filenames as [|f rest IH]; intros w; simpl.
  - left. unfold ret. destruct w; simpl. by rewrite app_nil_r.
  - unfold bind, sftp_put.
    destruct (fs w !! f) as [text|] eqn:Hf.
    + destruct (put_ok P f f text).
      * destruct (IH (log_sftp (Put f f true) w))
          as [->|(e & copied & failed & remaining & -> & ->)].
        -- left. simpl. by rewrite <- app_assoc.
        -- right. exists e, (f :: copied), failed, remaining. split; [done|].
           simpl. by rewrite <- app_assoc.
      * right. by exists (PutFailed f), [], f, rest.
    + right. by exists (OSError f), [], f, rest.
Qed.

(** The four ways the [try] statement can end. *)
Lemma transfer_spec host user pw filenames w :
  let after events := World (fs w) (sftp_log w ++ events) (stdout w) in
  let copy f := Put f f true in
  transfer host user pw filenames w
  = (inr tt, after (Connect host user pw true :: OpenSftp true
                    :: map copy filenames ++ [SftpClose; ClientClose]))
  \/ transfer host user pw filenames w
     = (inl ConnectFailed, after [Connect host user pw false; ClientClose])
  \/ transfer host user pw filenames w
     = (inl OpenSftpFailed,
        after [Connect host user pw true; OpenSftp false; ClientClose])
  \/ exists e copied failed remaining,
       filenames = copied ++ failed :: remaining
       /\ transfer host user pw filenames w
          = (inl e, after (Connect host user pw true :: OpenSftp true
                           :: map copy copied
                           ++ [Put failed failed false; SftpClose; ClientClose])).
Proof.
  intros after copy. unfold transfer, transfer_try, client_connect, client_open_sftp.
  destruct (connect_ok P host user pw).
  - destruct (open_sftp_ok P).
    + destruct (put_all_spec filenames
                  (log_sftp (OpenSftp true) (log_sftp (Connect host user pw true) w)))
        as [->|(e & copied & failed & remaining & -> & ->)].
      * left. unfold after, bind, sftp_close, client_close, log_sftp. simpl.
        do 2 f_equal. rewrite <- !app_assoc. done.
      * right; right; right. exists e, copied, failed, remaining. split; [done|].
        unfold after, bind, sftp_close, client_close, raise, log_sftp. simpl.
        do 2 f_equal. rewrite <- !app_assoc. done.
    + right; right; left.
      unfold after, bind, ret, client_close, raise, log_sftp. simpl.
      do 2 f_equal. by rewrite <- !app_assoc.
  - right; left.
    unfold after, bind, ret, client_close, raise, log_sftp. simpl.
    do 2 f_equal. by rewrite <- !app_assoc.
Qed.

Lemma transfer_keeps_files host user pw filenames w res w' :
  transfer host user pw filenames w = (res, w') ->
  fs w' = fs w /\ stdout w' = stdout w.
Proof.
  intros H.
  destruct (transfer_spec host user pw filenames w)
    as [E|[E|[E|(e & copied & failed & remaining & _ & E)]]];
    rewrite E in H; by simplify_eq.
Qed.

(** Every copy the transfer attempts is of a file name of the manifest. *)
Lemma transfer_puts host user pw filenames w res w' localpath remotepath ok :
  transfer host user pw filenames w = (res, w') ->
  In (Put localpath remotepath ok) (sftp_log w') ->
  In (Put localpath remotepath ok) (sftp_log w)
  \/ (remotepath = localpath /\ In localpath filenames).
Proof.
  intros H.
  destruct (transfer_spec host user pw filenames w)
    as [E|[E|[E|(e & copied & failed & remaining & Hf & E)]]];
    rewrite E in H; simplify_eq; simpl;
    (intros [Hin|Hin]%in_app_iff; [by left|right]); simpl in Hin.
  - destruct Hin as [?|[?|Hin]]; try done.
    apply in_app_iff in Hin as [Hin|Hin].
    + apply in_map_iff in Hin as (f & Hf & Hin). by simplify_eq.
    + simpl in Hin. by destruct Hin as [?|[?|[]]].
  - by destruct Hin as [?|[?|[]]].
  - by destruct Hin as [?|[?|[?|[]]]].
  - destruct Hin as [?|[?|Hin]]; try done.
    apply in_app_iff in Hin as [Hin|Hin].
    + apply in_map_iff in Hin as (f & Hf & Hin). simplify_eq.
      split; [done|]. apply in_app_iff. by left.
    + simpl in Hin. destruct Hin as [?|[?|[?|[]]]]; try done. simplify_eq.
      split; [done|]. apply in_app_iff. by right; left.
Qed.

(** *** [persist_messages] and [main] *)

Section Run_to_end.
Variables (delimiter quotechar : string) (messages : list line).
Variable destination_path : string.
Variable fixed_headers : option (gmap string (list string)).

Local Abbreviation run := (loop delimiter quotechar destination_path fixed_headers).
Local Abbreviation persist :=
  (persist_messages delimiter quotechar messages destination_path fixed_headers).

Lemma persist_skipped host user pw port key fmt w :
  truthy host && truthy pw && truthy user && truthy key && truthy fmt = false ->
  persist host user pw port key fmt w
  = match run messages initial_locals w with
    | (inl e, w1) => (inl e, w1)
    | (inr L, w1) => (inr (state L), w1)
    end.
Proof.
  intros Hgate. unfold persist_messages, bind. rewrite Hgate.
  by destruct (run messages initial_locals w) as [[e|L] w1].
Qed.

Lemma persist_ok_inv host user pw port key fmt w st w' :
  persist host user pw port key fmt w = (inr st, w') ->
  exists L w1,
    run messages initial_locals w = (inr L, w1)
    /\ st = state L /\ stdout w' = stdout w /\ fs w' = fs w1.
Proof.
  unfold persist_messages, bind.
  destruct (run messages initial_locals w) as [[e|L] w1] eqn:Hrun; [done|].
  apply loop_traces in Hrun as Htr. destruct Htr as [_ Hout].
  destruct (truthy host && truthy pw && truthy user && truthy key && truthy fmt).
  - destruct (transfer host user pw _ w1) as [[e|[]] w2] eqn:Ht; [done|].
    apply transfer_keeps_files in Ht as [Hfs Hout']. unfold ret.
    intros [= <- <-]. exists L, w1. rewrite Hout', Hout. done.
  - unfold ret. intros [= <- <-]. by exists L, w1.
Qed.

(** C8: once the message loop has finished and the transfer is enabled,
    [persist_messages] ends in one of four ways.  Success: connect, open
    the SFTP channel, copy every file of the manifest in order, then close
    the channel and the client.  Failure of connect: only the client is
    closed.  Failure of opening the channel: only the client is closed.
    Failure of a copy: the copies before it were made, none after it is
    attempted, and the channel and the client are closed.  In each failure
    the exception is raised out of [persist_messages]. *)
Theorem transfer_releases_session host user pw port key fmt w L w1 :
  loop delimiter quotechar destination_path fixed_headers messages
    initial_locals w = (inr L, w1) ->
  truthy host && truthy pw && truthy user && truthy key && truthy fmt = true ->
  let outcome :=
    persist_messages delimiter quotechar messages destination_path fixed_headers
      host user pw port key fmt w in
  let filenames := od_values (stream_2_filenames L) in
  let after events := World (fs w1) (sftp_log w1 ++ events) (stdout w1) in
  let copy f := Put f f true in
  outcome
  = (inr (state L),
     after (Connect host user pw true :: OpenSftp true
            :: map copy filenames ++ [SftpClose; ClientClose]))
  \/ outcome
     = (inl ConnectFailed, after [Connect host user pw false; ClientClose])
  \/ outcome
     = (inl OpenSftpFailed,
        after [Connect host user pw true; OpenSftp false; ClientClose])
  \/ exists e copied failed remaining,
       filenames = copied ++ failed :: remaining
       /\ outcome
          = (inl e, after (Connect host user pw true :: OpenSftp true
                           :: map copy copied
                           ++ [Put failed failed false; SftpClose; ClientClose])).
Proof.
  intros Hrun Hgate outcome filenames after copy. unfold outcome.
  unfold persist_messages, bind. rewrite Hrun, Hgate.
  destruct (transfer_spec host user pw filenames w1)
    as [E|[E|[E|(e & copied & failed & remaining & Hf & E)]]].
  - left. fold filenames. by rewrite E.
  - right; left. fold filenames. by rewrite E.
  - right; right; left. fold filenames. by rewrite E.
  - right; right; right. exists e, copied, failed, remaining.
    split; [done|]. fold filenames. by rewrite E.
Qed.

(** C6 (amended): if any one of the five options sftp_host, sftp_username,
    sftp_password, sftp_public_key, sftp_public_key_format is absent, the
    transfer is skipped: [persist_messages] is the message loop alone and
    no call is made on the SFTP session. *)
Theorem transfer_needs_five_options host user pw port key fmt w :
  host = PNone \/ user = PNone \/ pw = PNone \/ key = PNone \/ fmt = PNone ->
  let outcome :=
    persist_messages delimiter quotechar messages destination_path fixed_headers
      host user pw port key fmt w in
  outcome
  = match loop delimiter quotechar destination_path fixed_headers messages
            initial_locals w with
    | (inl e, w1) => (inl e, w1)
    | (inr L, w1) => (inr (state L), w1)
    end
  /\ sftp_log (snd outcome) = sftp_log w.
Proof.
  intros Habsent outcome. unfold outcome.
  assert (truthy host && truthy pw && truthy user && truthy key && truthy fmt = false)
    as Hgate.
  { destruct Habsent as [->|[->|[->|[->| ->]]]]; simpl;
      rewrite ?andb_false_r; done. }
  rewrite (persist_skipped _ _ _ _ _ _ _ Hgate). split; [done|].
  destruct (run messages initial_locals w) as [[e|L] w1] eqn:Hrun; simpl;
    by apply loop_traces in Hrun as [-> _].
Qed.

(** C10: the enabling test is on truth values, and [sftp_port] plays no
    part.  Changing [sftp_port] changes nothing of the outcome of
    [persist_messages], trace of SFTP calls included; and giving any of the
    five tested options the empty string yields the same outcome as leaving
    it absent, with no call made on the SFTP session. *)
Theorem gate_tests_truth_and_ignores_port host user pw port port' key fmt w :
  let outcome h u p k f :=
    persist_messages delimiter quotechar messages destination_path fixed_headers
      h u p port k f w in
  let silent (o : (exn + pyval) * world) := sftp_log (snd o) = sftp_log w in
  outcome host user pw key fmt
  = persist_messages delimiter quotechar messages destination_path fixed_headers
      host user pw port' key fmt w
  /\ (outcome (PStr "") user pw key fmt = outcome PNone user pw key fmt
      /\ silent (outcome (PStr "") user pw key fmt))
  /\ (outcome host (PStr "") pw key fmt = outcome host PNone pw key fmt
      /\ silent (outcome host (PStr "") pw key fmt))
  /\ (outcome host user (PStr "") key fmt = outcome host user PNone key fmt
      /\ silent (outcome host user (PStr "") key fmt))
  /\ (outcome host user pw (PStr "") fmt = outcome host user pw PNone fmt
      /\ silent (outcome host user pw (PStr "") fmt))
  /\ (outcome host user pw key (PStr "") = outcome host user pw key PNone
      /\ silent (outcome host user pw key (PStr ""))).
Proof.
  intros outcome silent. unfold outcome, silent.
  assert (forall h u p k f, truthy h && truthy p && truthy u && truthy k && truthy f = false ->
            sftp_log (snd (persist h u p port k f w)) = sftp_log w) as Hquiet.
  { intros h u p k f Hgate. rewrite (persist_skipped _ _ _ _ _ _ _ Hgate).
    destruct (run messages initial_locals w) as [[e|L] w1] eqn:Hrun; simpl;
      by apply loop_traces in Hrun as [-> _]. }
  split; [done|].
  split_and!; try (apply Hquiet; simpl; rewrite ?andb_false_r; done);
    rewrite !persist_skipped; try done; simpl; rewrite ?andb_false_r; done.
Qed.

(** C9 (amended): after a message loop that ran to the end, a stream has
    an entry in the manifest exactly when the input held a RECORD of it,
    and the row of every such RECORD is in the stream's destination file;
    the entry is the one file name [<stream>-<now>.csv], and no stream has
    two entries.  A stream without a RECORD has no entry, its file name is
    never handed to [sftp.put], and its destination file is left as it was
    unless a RECORD of another stream resolves to the same path: every
    file the loop created or changed is the destination of a stream that
    had a RECORD. *)
Theorem manifest_lists_written_streams w L w1 :
  loop delimiter quotechar destination_path fixed_headers messages
    initial_locals w = (inr L, w1) ->
  let manifest := stream_2_filenames L in
  (forall S, is_Some (od_get S manifest)
             <-> existsb (record_of S) messages = true)
  /\ (forall S r, In (Decoded (RECORD S r)) messages ->
        exists fieldnames earlier later,
          fs w1 !! destination destination_path S
          = Some (earlier +:+ writerow delimiter quotechar fieldnames r +:+ later))
  /\ (forall S f, In (S, f) manifest -> f = stream_filename S)
  /\ List.NoDup (od_keys manifest)
  /\ (forall S, existsb (record_of S) messages = false ->
        ~ In (stream_filename S) (od_values manifest)
        /\ (forall host user pw port key fmt remotepath ok,
              In (Put (stream_filename S) remotepath ok)
                 (sftp_log (snd (persist_messages delimiter quotechar messages
                                   destination_path fixed_headers
                                   host user pw port key fmt w))) ->
              In (Put (stream_filename S) remotepath ok) (sftp_log w))
        /\ ((forall s r, In (Decoded (RECORD s r)) messages ->
               destination destination_path s <> destination destination_path S) ->
            fs w1 !! destination destination_path S
            = fs w !! destination destination_path S))
  /\ (forall filename, fs w1 !! filename <> fs w !! filename ->
        exists S r, In (Decoded (RECORD S r)) messages
                    /\ destination destination_path S = filename).
Proof.
  intros Hrun manifest. unfold manifest.
  assert (forall S, od_get S (stream_2_filenames L)
                    = if existsb (record_of S) messages
                      then Some (stream_filename S) else None) as Hget.
  { intros S. by rewrite (loop_manifest_get _ _ _ _ S _ _ _ _ _ Hrun). }
  destruct (loop_manifest_shape _ _ _ _ _ _ _ _ _ Hrun) as [Hshape Hnd];
    [by intros k f []|constructor|].
  assert (forall S, existsb (record_of S) messages = false ->
            ~ In (stream_filename S) (od_values (stream_2_filenames L))) as Hout.
  { intros S Hno ([k f] & Hf & Hin)%in_map_iff. simpl in Hf. subst f.
    apply Hshape in Hin as Hk. apply stream_filename_inj in Hk. subst k.
    apply od_In_get in Hin as [f Hin]. rewrite Hget, Hno in Hin. done. }
  split_and!; try done.
  - intros S. rewrite Hget. destruct (existsb (record_of S) messages).
    + split; [done|by eauto].
    + split; [by intros []|done].
  - intros S r Hin. by eapply loop_row_written.
  - intros S Hno. split_and!.
    + by apply Hout.
    + intros host user pw port key fmt remotepath ok.
      unfold persist_messages, bind. rewrite Hrun.
      apply loop_traces in Hrun as [Hlog _].
      destruct (truthy host && truthy pw && truthy user && truthy key && truthy fmt).
      * destruct (transfer host user pw _ w1) as [[e|[]] w2] eqn:Ht; simpl;
          intros [Hin|[_ Hin]]%(transfer_puts _ _ _ _ _ _ _ _ _ _ Ht);
          rewrite <- ?Hlog; try done; by apply Hout in Hin.
      * simpl. by rewrite Hlog.
    + intros Hother. by eapply loop_frame.
  - intros filename Hne. by eapply loop_changes.
Qed.

End Run_to_end.

Lemma main_unfold cfg messages w :
  main cfg messages w
  = match persist_messages
            (default "," (cfg_delimiter cfg)) (default dquote (cfg_quotechar cfg))
            messages (default "" (cfg_destination_path cfg)) (cfg_fixed_headers cfg)
            (default PNone (cfg_sftp_host cfg)) (default PNone (cfg_sftp_username cfg))
            (default PNone (cfg_sftp_password cfg)) (default PNone (cfg_sftp_port cfg))
            (default PNone (cfg_sftp_public_key cfg))
            (default PNone (cfg_sftp_public_key_format cfg)) w with
    | (inl e, w') => (inl e, w')
    | (inr st, w') => emit_state st w'
    end.
Proof. reflexivity. Qed.

(** C1 (amended): in a run of [main] that ends without error, a checkpoint
    line is written exactly when the last message among the RECORD and
    STATE messages is a STATE message whose payload is not null.  Then
    standard output receives one write, the JSON text of that payload
    followed by a line break, and then a flush; otherwise standard output
    receives nothing. *)
Theorem checkpoint_emitted_iff_pending cfg messages w w' :
  main cfg messages w = (inr tt, w') ->
  (forall v, pending v messages -> v <> PNone ->
     stdout w' = stdout w ++ [StdoutWrite (json_dumps P v +:+ newline); StdoutFlush])
  /\ ((forall v, pending v messages -> v = PNone) -> stdout w' = stdout w).
Proof.
  rewrite main_unfold.
  destruct (persist_messages _ _ _ _ _ _ _ _ _ _ _ w) as [[e|st] w1] eqn:Hp; [done|].
  apply persist_ok_inv in Hp as (L & w0 & Hrun & -> & Hout & _).
  intros Hemit. split.
  - intros v Hv Hnn. rewrite (loop_pending _ _ _ _ _ _ _ _ _ _ Hrun Hv) in Hemit.
    destruct v; try done; simpl in Hemit; simplify_eq; simpl;
      by rewrite Hout, <- app_assoc.
  - intros Hnone.
    assert (state L = PNone) as Hst.
    { destruct (loop_state_cases _ _ _ _ _ _ _ _ _ Hrun) as [?|[Hv|[? _]]];
        [done|by apply Hnone|done]. }
    rewrite Hst in Hemit. simpl in Hemit. unfold ret in Hemit. by simplify_eq.
Qed.

(** C2: if the messages before a RECORD of stream [S] were processed and
    none of them is a SCHEMA of [S], the run ends at that RECORD with the
    exception raised for a record without schema: the world is the one the
    earlier messages left (no row is written, nothing is transferred or
    printed), and whatever follows the RECORD is not processed. *)
Theorem record_before_schema_is_fatal cfg before S r after w L w1 :
  existsb (schema_of S) before = false ->
  consume cfg before w = (inr L, w1) ->
  main cfg (before ++ Decoded (RECORD S r) :: after) w
  = (inl (RecordBeforeSchema S), w1).
Proof.
  unfold consume. intros Hno Hrun.
  rewrite main_unfold. unfold persist_messages, bind.
  rewrite loop_app, Hrun, loop_cons. simpl.
  rewrite process_record_unknown; [done|].
  rewrite (loop_schemas _ _ _ _ _ _ _ _ _ _ Hrun Hno). apply lookup_empty.
Qed.

End Target.

(** ** The program on concrete inputs *)

(** C1, a run the theorem applies to: SCHEMA, RECORD, then STATE with the
    payload [{bookmark: 42}] prints that payload and flushes. *)
Lemma checkpoint_emitted_after_record :
  stdout (snd (main plain empty_config
                 [users_schema; Decoded (RECORD "users" xy_record);
                  Decoded (STATE bookmark)] empty_world))
  = stdout empty_world
    ++ [StdoutWrite (json_dumps plain bookmark +:+ newline); StdoutFlush].
Proof.
  set (messages := [users_schema; Decoded (RECORD "users" xy_record);
                    Decoded (STATE bookmark)]).
  assert (main plain empty_config messages empty_world
          = (inr tt, snd (main plain empty_config messages empty_world))) as Hrun
    by (vm_compute; reflexivity).
  apply (proj1 (checkpoint_emitted_iff_pending plain empty_config messages
                  empty_world _ Hrun) bookmark).
  - exists [users_schema; Decoded (RECORD "users" xy_record)], []. by split.
  - discriminate.
Defined.

(** C1 as stated fails on a STATE message whose payload is null: the
    message is pending at the end of the input and the run ends without
    error, yet nothing is written to standard output. *)
Lemma null_state_emits_nothing :
  pending PNone [Decoded (STATE PNone)]
  /\ main plain empty_config [Decoded (STATE PNone)] empty_world
     = (inr tt, empty_world).
Proof. split; [by exists [], []|reflexivity]. Qed.

(** C2, a run the theorem applies to. *)
Lemma record_before_schema_run :
  main plain empty_config
    ([Decoded (STATE bookmark)]
     ++ Decoded (RECORD "users" xy_record) :: [users_schema]) empty_world
  = (inl (RecordBeforeSchema "users"), empty_world).
Proof.
  apply (record_before_schema_is_fatal plain empty_config
           [Decoded (STATE bookmark)] "users" xy_record [users_schema]
           empty_world (set_state bookmark initial_locals) empty_world);
    reflexivity.
Defined.

(** C3: the header list is resolved again for the second RECORD of a
    stream.  In a fresh file the header row is [a,b], and the record
    [{b: 3, c: 4}] is written as [3,4], under its own field names, where
    the header list [a,b] prescribes an empty cell for [a] followed by 3.
    In a file that starts with the header [a,b,c] the first record is laid
    out by that header (field [d] dropped) and the second by its own
    fields [a] and [d]. *)
Theorem header_resolved_again_for_second_record :
  fs (snd (main plain empty_config
             [users_schema;
              Decoded (RECORD "users" [("a", PInt 1); ("b", PInt 2)]);
              Decoded (RECORD "users" [("b", PInt 3); ("c", PInt 4)])]
             empty_world)) !! users_file
  = Some ("a,b" +:+ crlf +:+ "1,2" +:+ crlf +:+ "3,4" +:+ crlf)
  /\ writerow plain "," dquote ["a"; "b"] [("b", PInt 3); ("c", PInt 4)]
     = ",3" +:+ crlf
  /\ fs (snd (main plain empty_config
                [users_schema;
                 Decoded (RECORD "users"
                            [("a", PInt 1); ("b", PInt 2); ("c", PInt 3); ("d", PInt 4)]);
                 Decoded (RECORD "users" [("a", PInt 5); ("d", PInt 6)])]
                (World (<[users_file := "a,b,c" +:+ crlf]> ∅) [] []))) !! users_file
     = Some ("a,b,c" +:+ crlf +:+ "1,2,3" +:+ crlf +:+ "5,6" +:+ crlf)
  /\ writerow plain "," dquote ["a"; "b"; "c"] [("a", PInt 5); ("d", PInt 6)]
     = "5,," +:+ crlf.
Proof. split_and!; vm_compute; reflexivity. Qed.

(** C4, the record [{x: 1, y: 2}] appended to a missing file: the file
    then holds the two lines [x,y] and [1,2]. *)
Lemma fresh_file_two_lines :
  fs (snd (process_record plain "," dquote "" None "users" xy_record
             (declare "users" (PDict []) (PList []) initial_locals) empty_world))
    !! users_file
  = Some ("x,y" +:+ crlf +:+ "1,2" +:+ crlf).
Proof.
  set (L := declare "users" (PDict []) (PList []) initial_locals).
  set (out := process_record plain "," dquote "" None "users" xy_record L empty_world).
  assert (out = (inr (set_state PNone (set_headers "users" ["x"; "y"]
                                         (set_filename "users" users_file L))),
                 snd out)) as Hrun by (vm_compute; reflexivity).
  exact (proj1 (fresh_file_gets_record_header plain "," dquote "" None "users"
                  xy_record L empty_world _ _ Hrun) eq_refl eq_refl).
Defined.

(** C4 as stated fails when a fixed header list is configured: the header
    row of the fresh file is the configured list, not the record's field
    names. *)
Lemma fresh_file_with_fixed_headers :
  fs empty_world !! users_file = None
  /\ fs (snd (main plain
                (Config None None None zyx_headers None None None None None None)
                [users_schema; Decoded (RECORD "users" xy_record)] empty_world))
       !! users_file
     = Some ("z,y,x" +:+ crlf +:+ ",2,1" +:+ crlf)
  /\ "z,y,x" +:+ crlf +:+ ",2,1" +:+ crlf <> "x,y" +:+ crlf +:+ "1,2" +:+ crlf.
Proof. split_and!; [reflexivity|vm_compute; reflexivity|discriminate]. Qed.

(** C5, a file that already starts with the header [a,b]: the record is
    laid out by the configured list [z,y,x] all the same. *)
Lemma fixed_headers_over_existing_file :
  exists L' w',
    loop plain "," dquote "" zyx_headers
      ([users_schema] ++ [Decoded (RECORD "users" xy_record)]) initial_locals
      (World (<[users_file := "a,b" +:+ crlf]> ∅) [] [])
    = (inr L', w')
    /\ headers L' !! "users" = Some ["z"; "y"; "x"]
    /\ fs w' !! users_file = Some ("a,b" +:+ crlf +:+ ",2,1" +:+ crlf).
Proof.
  eexists _, _. split; [vm_compute; reflexivity|].
  match goal with
  | |- headers ?L' !! _ = _ /\ fs ?w' !! _ = _ =>
      destruct (fixed_headers_govern_rows plain "," dquote "" zyx_headers "users"
                  ["z"; "y"; "x"] [users_schema] xy_record
                  (World (<[users_file := "a,b" +:+ crlf]> ∅) [] []) L' w')
        as (L & w & Hrun & Hh & Hfs)
  end; [reflexivity|vm_compute; reflexivity|].
  split; [exact Hh|]. vm_compute in Hrun. simplify_eq. vm_compute in Hfs.
  vm_compute. exact Hfs.
Defined.

(** C6, a configuration without [sftp_host]: no call on the SFTP session. *)
Lemma transfer_skipped_without_host :
  persist_messages plain "," dquote [users_schema] "" None
    PNone (PStr "loader") (PStr "secret") (PInt 22) (PStr "AAAAB3Nza") (PStr "ssh-rsa")
    empty_world
  = match loop plain "," dquote "" None [users_schema] initial_locals empty_world with
    | (inl e, w1) => (inl e, w1)
    | (inr L, w1) => (inr (state L), w1)
    end
  /\ sftp_log (snd (persist_messages plain "," dquote [users_schema] "" None
                      PNone (PStr "loader") (PStr "secret") (PInt 22)
                      (PStr "AAAAB3Nza") (PStr "ssh-rsa") empty_world))
     = sftp_log empty_world.
Proof.
  apply (transfer_needs_five_options plain "," dquote [users_schema] "" None
           PNone (PStr "loader") (PStr "secret") (PInt 22) (PStr "AAAAB3Nza")
           (PStr "ssh-rsa") empty_world).
  by left.
Defined.

(** C6 as stated fails when [sftp_port] is the absent option: with the
    other five present the session is opened. *)
Lemma transfer_runs_without_port :
  cfg_sftp_port (five_credentials None) = None
  /\ sftp_log (snd (main plain (five_credentials None) [] empty_world))
     = [Connect (PStr "files.example.org") (PStr "loader") (PStr "secret") true;
        OpenSftp true; SftpClose; ClientClose].
Proof. split; reflexivity. Qed.

(** C7: with [destination_path] set to [out] the record is written to
    [out/users-<now>.csv], while [sftp.put] is called on the bare name
    [users-<now>.csv], a path the run did not write; here that file does
    not exist and the run ends with the error of the failed copy. *)
Theorem transfer_copies_bare_filename :
  main plain (five_credentials (Some "out"))
    [users_schema; Decoded (RECORD "users" xy_record)] empty_world
  = (inl (OSError users_file),
     World (<["out/" +:+ users_file := "x,y" +:+ crlf +:+ "1,2" +:+ crlf]> ∅)
           [Connect (PStr "files.example.org") (PStr "loader") (PStr "secret") true;
            OpenSftp true; Put users_file users_file false; SftpClose; ClientClose]
           [])
  /\ destination plain "out" "users" = "out/" +:+ users_file
  /\ stream_filename plain "users" = users_file.
Proof. split_and!; vm_compute; reflexivity. Qed.

(** C8, a transfer in which every step succeeds. *)
Lemma transfer_success_run :
  persist_messages plain "," dquote
    [users_schema; Decoded (RECORD "users" xy_record)] "" None
    (PStr "files.example.org") (PStr "loader") (PStr "secret") PNone
    (PStr "AAAAB3Nza") (PStr "ssh-rsa") empty_world
  = (inr PNone,
     World (<[users_file := "x,y" +:+ crlf +:+ "1,2" +:+ crlf]> ∅)
           [Connect (PStr "files.example.org") (PStr "loader") (PStr "secret") true;
            OpenSftp true; Put users_file users_file true; SftpClose; ClientClose]
           []).
Proof.
  set (L := Locals PNone (<["users" := PDict []]> ∅) [("users", users_file)]
                   (<["users" := PList []]> ∅) (<["users" := ["x"; "y"]]> ∅)
                   (<["users" := PDict []]> ∅)).
  set (w1 := World (<[users_file := "x,y" +:+ crlf +:+ "1,2" +:+ crlf]> ∅) [] []).
  assert (loop plain "," dquote "" None
            [users_schema; Decoded (RECORD "users" xy_record)] initial_locals
            empty_world = (inr L, w1)) as Hrun by (vm_compute; reflexivity).
  destruct (transfer_releases_session plain "," dquote
              [users_schema; Decoded (RECORD "users" xy_record)] "" None
              (PStr "files.example.org") (PStr "loader") (PStr "secret") PNone
              (PStr "AAAAB3Nza") (PStr "ssh-rsa") empty_world L w1 Hrun eq_refl)
    as [E|[E|[E|(e & copied & failed & remaining & _ & E)]]].
  - exact E.
  - vm_compute in E. discriminate E.
  - vm_compute in E. discriminate E.
  - vm_compute in E. discriminate E.
Defined.

(** C9, a run with a SCHEMA and a RECORD of [users] and only a SCHEMA of
    [orders]: [users] is in the manifest, the file name of [orders] is
    not among those to transfer, and no file of [orders] appears. *)
Lemma schema_only_stream_not_transferred :
  exists L w1,
    loop plain "," dquote "" None
      [users_schema; orders_schema; Decoded (RECORD "users" xy_record)]
      initial_locals empty_world
    = (inr L, w1)
    /\ is_Some (od_get "users" (stream_2_filenames L))
    /\ ~ In (stream_filename plain "orders") (od_values (stream_2_filenames L))
    /\ fs w1 !! destination plain "" "orders"
       = fs empty_world !! destination plain "" "orders".
Proof.
  eexists _, _. split; [vm_compute; reflexivity|].
  match goal with
  | |- is_Some (od_get _ (stream_2_filenames ?L)) /\ _ /\ fs ?w1 !! _ = _ =>
      destruct (manifest_lists_written_streams plain "," dquote
                  [users_schema; orders_schema; Decoded (RECORD "users" xy_record)]
                  "" None empty_world L w1)
        as (Hiff & _ & _ & _ & Hout & _)
  end; [vm_compute; reflexivity|].
  destruct (Hout "orders" eq_refl) as (Hnot & _ & Hframe).
  split_and!.
  - apply Hiff. reflexivity.
  - exact Hnot.
  - apply Hframe. intros s r [H|[H|[H|[]]]]; try discriminate H.
    injection H as <- _. vm_compute. discriminate.
Defined.

(** C9 as stated fails when two streams resolve to one path: with
    [destination_path] [/tmp], the stream [a] has only a SCHEMA message,
    yet its destination file is created by the RECORD of the stream
    [/tmp/a], whose absolute file name [os.path.join] keeps as it is. *)
Lemma schema_only_stream_gets_file :
  existsb (record_of "a")
    [Decoded (SCHEMA "a" (PDict []) (PList []));
     Decoded (SCHEMA "/tmp/a" (PDict []) (PList []));
     Decoded (RECORD "/tmp/a" xy_record)] = false
  /\ fs empty_world !! destination plain "/tmp" "a" = None
  /\ fs (snd (loop plain "," dquote "/tmp" None
                [Decoded (SCHEMA "a" (PDict []) (PList []));
                 Decoded (SCHEMA "/tmp/a" (PDict []) (PList []));
                 Decoded (RECORD "/tmp/a" xy_record)]
                initial_locals empty_world)) !! destination plain "/tmp" "a"
     = Some ("x,y" +:+ crlf +:+ "1,2" +:+ crlf).
Proof. split_and!; vm_compute; reflexivity. Qed.

(** ** [flatten] *)

(** Induction over Python values that reaches inside lists and mappings. *)
Lemma pyval_nested_ind (Q : pyval -> Prop) :
  Q PNone -> (forall b, Q (PBool b)) -> (forall n, Q (PInt n)) -> (forall s, Q (PStr s)) ->
  (forall items, Forall Q items -> Q (PList items)) ->
  (forall items, Forall (fun kv => Q (snd kv)) items -> Q (PDict items)) ->
  forall v, Q v.
Proof.
  intros HNone HBool HInt HStr HList HDict. fix IH 1. intros [| b | n | s | items | items].
  - exact HNone.
  - apply HBool.
  - apply HInt.
  - apply HStr.
  - apply HList. induction items as [|x items IHitems]; constructor; [apply IH|exact IHitems].
  - apply HDict. induction items as [|x items IHitems]; constructor; [apply IH|exact IHitems].
Qed.

Section Flatten.
Variable py_str : pyval -> string.
Variable sep : string.

(** The body of [flatten] as the source writes it. *)
Lemma flatten_unfold d parent_key :
  flatten py_str d parent_key sep
  = dict_of_items
      (flat_map
         (fun kv =>
            let new_key := child_key parent_key sep (fst kv) in
            match snd kv with
            | PDict nested => flatten py_str nested new_key sep
            | PList _ => [(new_key, PStr (py_str (snd kv)))]
            | v => [(new_key, v)]
            end) d).
Proof.
  unfold flatten. simpl. f_equal.
  induction d as [|[k v] d IH]; simpl; [done|]. rewrite IH. f_equal.
  by destruct v.
Qed.

Lemma dict_fold_In {V} (items acc : list (string * V)) k v :
  In (k, v) (fold_left (fun d kv => od_set (fst kv) (snd kv) d) items acc) ->
  In (k, v) acc \/ In (k, v) items.
Proof.
  revert acc. induction items as [|[k0 v0] items IH]; intros acc; simpl; [by left|].
  intros [[[-> ->]|Hin]%od_set_In|Hin]%IH.
  - by right; left.
  - by left.
  - by right; right.
Qed.

Lemma dict_fold_NoDup {V} (items acc : list (string * V)) :
  List.NoDup (od_keys acc) ->
  List.NoDup (od_keys (fold_left (fun d kv => od_set (fst kv) (snd kv) d) items acc)).
Proof.
  revert acc. induction items as [|[k0 v0] items IH]; intros acc Hnd; simpl; [done|].
  apply IH. by apply od_set_NoDup.
Qed.

Lemma od_set_fresh {V} k (v : V) d :
  ~ In k (od_keys d) -> od_set k v d = d ++ [(k, v)].
Proof.
  induction d as [|[k0 v0] d IH]; simpl; [done|]. intros Hnot.
  rewrite decide_False by (intros ->; apply Hnot; by left).
  rewrite IH; [done|]. intros Hin. apply Hnot. by right.
Qed.

Lemma dict_fold_distinct {V} (items acc : list (string * V)) :
  List.NoDup (od_keys (acc ++ items)) ->
  fold_left (fun d kv => od_set (fst kv) (snd kv) d) items acc = acc ++ items.
Proof.
  revert acc. induction items as [|[k0 v0] items IH]; intros acc Hnd; simpl.
  - by rewrite app_nil_r.
  - assert (~ In k0 (od_keys acc)) as Hfresh.
    { unfold od_keys in *. rewrite map_app in Hnd. simpl in Hnd.
      apply List.NoDup_remove_2 in Hnd. intros Hin. apply Hnd.
      apply in_app_iff. by left. }
    rewrite (od_set_fresh _ _ _ Hfresh).
    rewrite IH; rewrite <- app_assoc; done.
Qed.

(** A mapping has each key once. *)
Lemma flatten_keys_distinct d parent_key :
  List.NoDup (od_keys (flatten py_str d parent_key sep)).
Proof. unfold flatten. simpl. apply dict_fold_NoDup. constructor. Qed.

Lemma flatten_entry_scalar new_key v :
  Forall (fun kv => is_scalar (snd kv) = true) (flatten_entry py_str sep new_key v).
Proof.
  revert new_key. induction v as [| b | n | s | items IH | items IH] using pyval_nested_ind;
    intros new_key; simpl; try by repeat constructor.
  apply Forall_forall. intros [k x] Hin. apply list_elem_of_In in Hin.
  apply dict_fold_In in Hin as [[]|Hin]. simpl.
  induction IH as [|[k0 v0] items Hv0 _ IHitems]; simpl in Hin; [done|].
  apply in_app_iff in Hin as [Hin|Hin]; [|by apply IHitems].
  specialize (Hv0 (child_key new_key sep k0)).
  rewrite Forall_forall in Hv0. apply (Hv0 (k, x)). by apply list_elem_of_In.
Qed.

Lemma flatten_entry_prefix new_key v k x :
  new_key <> "" ->
  In (k, x) (flatten_entry py_str sep new_key v) ->
  exists rest, k = new_key +:+ rest.
Proof.
  revert new_key. induction v as [| b | n | s | items IH | items IH] using pyval_nested_ind;
    intros new_key Hne; simpl;
    try (intros [[= <- <-]|[]]; exists ""; by rewrite str_app_nil_r).
  intros [[]|Hin]%dict_fold_In.
  induction IH as [|[k0 v0] items Hv0 _ IHitems]; simpl in Hin; [done|].
  apply in_app_iff in Hin as [Hin|Hin]; [|by apply IHitems].
  apply Hv0 in Hin as [rest ->].
  - unfold child_key. apply String.eqb_neq in Hne. rewrite Hne. simpl.
    exists (sep +:+ k0 +:+ rest). by rewrite !str_app_assoc.
  - unfold child_key. apply String.eqb_neq in Hne as Hne'. rewrite Hne'.
    destruct new_key; [done|]. simpl. discriminate.
Qed.

(** X1: no value of a flattened mapping is itself a mapping or a list
    (nested mappings are expanded, lists are turned into strings). *)
Theorem flatten_values_scalar d parent_key :
  Forall (fun kv => is_scalar (snd kv) = true) (flatten py_str d parent_key sep).
Proof. apply flatten_entry_scalar. Qed.

(** X2: when [parent_key] is not empty, every key of the result starts
    with [parent_key] followed by the separator. *)
Theorem flatten_keys_prefixed d parent_key k x :
  parent_key <> "" ->
  In (k, x) (flatten py_str d parent_key sep) ->
  exists rest, k = parent_key +:+ sep +:+ rest.
Proof.
  intros Hne. unfold flatten. simpl. intros [[]|Hin]%dict_fold_In.
  induction d as [|[k0 v0] d IH]; simpl in Hin; [done|].
  apply in_app_iff in Hin as [Hin|Hin]; [|by apply IH].
  unfold child_key in Hin. apply String.eqb_neq in Hne as Hne'. rewrite Hne' in Hin.
  apply flatten_entry_prefix in Hin as [rest ->].
  - exists (k0 +:+ rest). by rewrite !str_app_assoc.
  - destruct parent_key; [done|]. simpl. discriminate.
Qed.

Lemma flat_map_singletons {A} (f : A -> list A) (l : list A) :
  Forall (fun x => f x = [x]) l -> flat_map f l = l.
Proof. induction 1 as [|x l Hx _ IH]; simpl; [done|]. by rewrite Hx, IH. Qed.

Lemma flatten_flat d :
  List.NoDup (od_keys d) ->
  Forall (fun kv => is_scalar (snd kv) = true) d ->
  flatten py_str d "" sep = d.
Proof.
  intros Hnd Hflat. rewrite flatten_unfold, flat_map_singletons.
  - unfold dict_of_items. by rewrite dict_fold_distinct.
  - eapply Forall_impl; [exact Hflat|]. intros [k v] Hv. simpl in *. by destruct v.
Qed.

(** X3: a mapping with distinct keys whose values are all scalars is
    returned unchanged when flattened with the default empty [parent_key]. *)
Theorem flatten_flat_unchanged d :
  List.NoDup (od_keys d) ->
  Forall (fun kv => is_scalar (snd kv) = true) d ->
  flatten py_str d "" sep = d.
Proof. apply flatten_flat. Qed.

(** X4: flattening is idempotent: flattening a result of [flatten] again,
    with the default [parent_key], gives it back. *)
Theorem flatten_idempotent d parent_key :
  flatten py_str (flatten py_str d parent_key sep) "" sep
  = flatten py_str d parent_key sep.
Proof.
  apply flatten_flat;
    [apply flatten_keys_distinct|apply flatten_entry_scalar].
Qed.

End Flatten.

(** ** Further behaviour of the message loop *)

Section Behaviour.
Variable P : platform.
Variables (delimiter quotechar destination_path : string).
Variable fixed_headers : option (gmap string (list string)).

Local Abbreviation run := (loop P delimiter quotechar destination_path fixed_headers).
Local Abbreviation step := (handle P delimiter quotechar destination_path fixed_headers).
Local Abbreviation on_record :=
  (process_record P delimiter quotechar destination_path fixed_headers).
Local Abbreviation dest := (destination P destination_path).

Lemma handle_err l L w e w' :
  step l L w = (inl e, w') ->
  sftp_log w' = sftp_log w /\ stdout w' = stdout w
  /\ (forall filename,
        (forall s r, l = Decoded (RECORD s r) -> filename <> dest s) ->
        fs w' !! filename = fs w !! filename)
  /\ match e with
     | TypeError | CsvError _ => True
     | _ => w' = w
     end.
Proof.
  intros H.
  destruct (handle_traces _ _ _ _ _ _ _ _ _ _ H) as [Hlog Hout].
  split_and!; try done.
  - intros filename Hf. eapply handle_frame; [exact H|].
    intros s r Hl Heq. by apply (Hf s r Hl).
  - destruct l as [[s r|v|s sch kp|t ver]| | |]; simpl in H;
      try (unfold ret, raise in H; by simplify_eq).
    apply process_record_err in H as [->|(added & [-> | ->] & _)]; [|done|done].
    by destruct e.
Qed.

(** X5: a message on which the loop raises ends the run with that
    exception, and the messages after it are not processed.  It leaves
    the SFTP session and standard output alone and every file other than
    the destination of the failing RECORD as the earlier messages left
    them; unless the exception comes from the csv layer, the world is
    exactly the one the earlier messages left.  (An exception of the csv
    writer can leave the destination file opened, so created when it was
    missing, and with a header row.) *)
Theorem failed_message_ends_run before l after L0 w L w1 e w2 :
  loop P delimiter quotechar destination_path fixed_headers before L0 w
  = (inr L, w1) ->
  handle P delimiter quotechar destination_path fixed_headers l L w1
  = (inl e, w2) ->
  loop P delimiter quotechar destination_path fixed_headers
    (before ++ l :: after) L0 w = (inl e, w2)
  /\ sftp_log w2 = sftp_log w1 /\ stdout w2 = stdout w1
  /\ (forall filename,
        (forall s r, l = Decoded (RECORD s r) ->
                     filename <> destination P destination_path s) ->
        fs w2 !! filename = fs w1 !! filename)
  /\ match e with
     | TypeError | CsvError _ => True
     | _ => w2 = w1
     end.
Proof.
  intros Hrun Hstep. split.
  - by rewrite loop_app, Hrun, loop_cons, Hstep.
  - by eapply handle_err.
Qed.

(** The validator of a stream is built from its latest SCHEMA message,
    and the two registries hold the same schemas. *)
Lemma loop_registry S messages L w L' w' :
  run messages L w = (inr L', w') ->
  schemas L = validators L ->
  schemas L' = validators L'
  /\ validators L' !! S = match last_schema S messages with
                          | Some schema => Some schema
                          | None => validators L !! S
                          end.
Proof.
  revert L w. induction messages as [|l rest IH]; intros L w; simpl.
  - unfold ret. by intros [= <- <-].
  - unfold bind. destruct (step l L w) as [[e|L1] w1] eqn:Hl; [done|].
    intros H Heq.
    assert (schemas L1 = validators L1
            /\ validators L1 !! S
               = match l with
                 | Decoded (SCHEMA s schema _) =>
                     if decide (s = S) then Some schema else validators L !! S
                 | _ => validators L !! S
                 end) as [Heq1 Hv1].
    { destruct l as [[s r|v|s sch kp|t ver]| | |]; simpl in Hl;
        try (unfold ret, raise in Hl; by simplify_eq).
      - apply process_record_inv in Hl as (hdr & _ & _ & _ & -> & -> & _). done.
      - unfold ret in Hl. simplify_eq. simpl. rewrite Heq. split; [done|].
        destruct (decide (s = S)) as [->|Hne];
          [apply lookup_insert_eq|by apply lookup_insert_ne]. }
    destruct (IH _ _ H Heq1) as [Heq' Hv']. split; [done|]. rewrite Hv'.
    destruct (last_schema S rest); [done|]. rewrite Hv1.
    destruct l as [[s r|v|s sch kp|t ver]| | |]; try done. by destruct (decide (s = S)).
Qed.

(** X7: a RECORD is validated against the schema of the latest SCHEMA
    message of its stream; when that schema rejects the record the run
    ends with the validation error and the record writes nothing. *)
Theorem rejected_record_is_fatal before S schema r after w L w1 :
  loop P delimiter quotechar destination_path fixed_headers
    before initial_locals w = (inr L, w1) ->
  last_schema S before = Some schema ->
  schema_accepts P schema r = false ->
  loop P delimiter quotechar destination_path fixed_headers
    (before ++ Decoded (RECORD S r) :: after) initial_locals w
  = (inl (ValidationError S), w1).
Proof.
  intros Hrun Hlast Hrej.
  destruct (loop_registry S _ _ _ _ _ Hrun eq_refl) as [Heq Hv]. rewrite Hlast in Hv.
  rewrite loop_app, Hrun, loop_cons. simpl. unfold process_record.
  by rewrite Heq, Hv, Hrej.
Qed.

Ltac io_open :=
  unfold when_not in *;
  unfold bind, ret, raise, stat_is_empty, read_first_row in *.

Lemma process_record_no_key_error S r L w e w' :
  schemas L = validators L ->
  on_record S r L w = (inl e, w') ->
  forall key, e <> KeyError key.
Proof.
  unfold process_record, resolve_headers. intros Heq H key. io_open. rewrite Heq in H.
  destruct (validators L !! S) as [sch|]; [|simpl in H; by simplify_eq].
  destruct (schema_accepts P sch r); [|simpl in H; by simplify_eq].
  set (p := expanduser _ _) in *.
  destruct (fixed_entry fixed_headers S) as [fixed|].
  - simpl in H. destruct (headers L !! S) as [h0|] eqn:Hh; simpl in H.
    + rewrite Hh in H.
      destruct (write_record_cases P delimiter quotechar p h0
                  (empty_or_missing (fs w) p) r w)
        as [E|[E|(e0 & added & [-> | ->] & E)]];
        rewrite E in H; simpl in H; by simplify_eq.
    + rewrite lookup_insert_eq in H.
      destruct (write_record_cases P delimiter quotechar p fixed
                  (empty_or_missing (fs w) p) r w)
        as [E|[E|(e0 & added & [-> | ->] & E)]];
        rewrite E in H; simpl in H; by simplify_eq.
  - simpl in H.
    destruct (bool_decide (headers L !! S = None) && negb (empty_or_missing (fs w) p)).
    + destruct (fs w !! p) as [text|]; [|simpl in H; by simplify_eq].
      destruct (csv_first_row P delimiter quotechar text) as [first_line|];
        [|simpl in H; by simplify_eq].
      simpl in H. rewrite lookup_insert_eq in H.
      match type of H with
      | context [write_record _ _ _ _ ?h ?b _ _] =>
          destruct (write_record_cases P delimiter quotechar p h b r w)
            as [E|[E|(e0 & added & [-> | ->] & E)]]
      end; rewrite E in H; simpl in H; by simplify_eq.
    + simpl in H. rewrite lookup_insert_eq in H.
      destruct (write_record_cases P delimiter quotechar p (od_keys r)
                  (empty_or_missing (fs w) p) r w)
        as [E|[E|(e0 & added & [-> | ->] & E)]];
        rewrite E in H; simpl in H; by simplify_eq.
Qed.

(** X8: started from its initial state, the loop never raises a
    [KeyError]: when [validators[stream]] is looked up the stream has a
    validator, and when [headers[stream]] is looked up the stream has a
    header list. *)
Theorem lookups_never_raise_key_error messages w e w' :
  loop P delimiter quotechar destination_path fixed_headers
    messages initial_locals w = (inl e, w') ->
  forall key, e <> KeyError key.
Proof.
  assert (forall L w, schemas L = validators L ->
            run messages L w = (inl e, w') -> forall key, e <> KeyError key) as Hgen.
  { induction messages as [|l rest IH]; intros L w0 Heq; simpl; [done|].
    unfold bind. destruct (step l L w0) as [[e1|L1] w1] eqn:Hl.
    - intros [= -> ->].
      destruct l as [[s r|v|s sch kp|t ver]| | |]; simpl in Hl;
        try (unfold ret, raise in Hl; by simplify_eq).
      by eapply process_record_no_key_error.
    - apply IH.
      destruct l as [[s r|v|s sch kp|t ver]| | |]; simpl in Hl;
        try (unfold ret, raise in Hl; by simplify_eq).
      + apply process_record_inv in Hl as (hdr & _ & _ & _ & -> & -> & _). done.
      + unfold ret in Hl. simplify_eq. simpl. by rewrite Heq. }
  intros H. by apply (Hgen initial_locals w eq_refl).
Qed.

(** Rows appended to a file that already has text, for a stream whose
    header list is cached and not fixed. *)
Lemma rows_appended S keys records L w L' w' text :
  run (map (fun r => Decoded (RECORD S r)) records) L w = (inr L', w') ->
  fixed_entry fixed_headers S = None ->
  (forall cells, csv_writerow P delimiter quotechar cells <> "") ->
  is_Some (headers L !! S) ->
  fs w !! dest S = Some text -> text <> "" ->
  Forall (fun r => od_keys r = keys) records ->
  fs w' !! dest S
  = Some (text +:+ fold_right String.append ""
                     (map (writerow P delimiter quotechar keys) records)).
Proof.
  intros H Hfix Hrow. revert L w text H.
  induction records as [|r records IH]; intros L w text H Hcached Htext Hne Hkeys.
  - simpl in H. unfold ret in H. simplify_eq. simpl. by rewrite str_app_nil_r.
  - apply Forall_cons in Hkeys as [Hr Hkeys].
    simpl in H. unfold bind in H.
    destruct (on_record S r L w) as [[e|L1] w1] eqn:Hstep; [done|].
    apply process_record_inv in Hstep
      as (hdr & _ & Hh & _ & _ & _ & _ & -> & _ & Hown).
    rewrite (Hown Hfix (or_intror Hcached)), Hr in H.
    assert (empty_or_missing (fs w) (dest S) = false) as Hfull.
    { unfold empty_or_missing. rewrite Htext. by apply String.eqb_neq. }
    rewrite Htext, Hfull in H. simpl in H.
    erewrite (IH _ _ _ H); simpl.
    + by rewrite str_app_assoc.
    + rewrite Hh, lookup_insert_eq. by eexists.
    + by rewrite lookup_insert_eq.
    + destruct text; [done|]. simpl. discriminate.
    + done.
Qed.

(** X9: records with one and the same list of field names, written for a
    stream without fixed headers to a file that is missing or empty when
    the first of them arrives, give a file that holds the header row of
    those field names followed by one row per record, in input order.
    (The csv writer is assumed never to emit the empty text for a row.) *)
Theorem uniform_records_fill_fresh_file S keys r records L w L' w' :
  loop P delimiter quotechar destination_path fixed_headers
    (map (fun r => Decoded (RECORD S r)) (r :: records)) L w = (inr L', w') ->
  fixed_entry fixed_headers S = None ->
  (forall cells, csv_writerow P delimiter quotechar cells <> "") ->
  empty_or_missing (fs w) (destination P destination_path S) = true ->
  Forall (fun r => od_keys r = keys) (r :: records) ->
  fs w' !! destination P destination_path S
  = Some (writeheader P delimiter quotechar keys
          +:+ fold_right String.append ""
                (map (writerow P delimiter quotechar keys) (r :: records))).
Proof.
  intros H Hfix Hrow Hempty [Hr Hkeys]%Forall_cons.
  simpl in H. unfold bind in H.
  destruct (on_record S r L w) as [[e|L1] w1] eqn:Hstep; [done|].
  apply process_record_inv in Hstep
    as (hdr & _ & Hh & _ & _ & _ & _ & -> & _ & Hown).
  rewrite (Hown Hfix (or_introl Hempty)), Hr, Hempty in H.
  assert (default "" (fs w !! dest S) = "") as Hold.
  { unfold empty_or_missing in Hempty. destruct (fs w !! dest S) as [text|]; [|done].
    by apply String.eqb_eq in Hempty as ->. }
  rewrite Hold in H.
  set (text := writeheader P delimiter quotechar keys
               +:+ writerow P delimiter quotechar keys r).
  assert (text <> "") as Hne.
  { intros Hnil. apply (f_equal String.length) in Hnil.
    unfold text in Hnil. rewrite append_length in Hnil.
    specialize (Hrow (dict_to_list keys r)). unfold writerow in Hnil.
    destruct (csv_writerow P delimiter quotechar (dict_to_list keys r)); [done|].
    simpl in Hnil. lia. }
  rewrite (rows_appended S keys records _ _ _ _ text H Hfix Hrow).
  - unfold text. simpl. by rewrite str_app_assoc.
  - rewrite Hh, lookup_insert_eq. by eexists.
  - simpl. by rewrite lookup_insert_eq.
  - done.
  - done.
Qed.

Lemma loop_headers_untouched S messages L w L' w' :
  run messages L w = (inr L', w') ->
  existsb (record_of S) messages = false ->
  headers L' !! S = headers L !! S.
Proof.
  revert L w. induction messages as [|l rest IH]; intros L w; simpl.
  - unfold ret. by intros [= <- <-].
  - unfold bind. destruct (step l L w) as [[e|L1] w1] eqn:Hl; [done|].
    intros H [Hl' Hrest]%orb_false_elim. rewrite (IH _ _ H Hrest).
    destruct l as [[s r|v|s sch kp|t ver]| | |]; simpl in Hl;
      try (unfold ret, raise in Hl; by simplify_eq).
    apply process_record_inv in Hl as (hdr & _ & -> & _).
    simpl in Hl'. apply bool_decide_eq_false in Hl'. by rewrite lookup_insert_ne.
Qed.

Lemma process_record_first_touch S r L w L' w' text first_line :
  on_record S r L w = (inr L', w') ->
  fixed_entry fixed_headers S = None ->
  headers L !! S = None ->
  fs w !! dest S = Some text -> text <> "" ->
  csv_first_row P delimiter quotechar text = Some first_line ->
  let fieldnames := match first_line with [] => od_keys r | _ => first_line end in
  headers L' !! S = Some fieldnames
  /\ fs w' !! dest S = Some (text +:+ writerow P delimiter quotechar fieldnames r).
Proof.
  intros H Hfix Hnone Htext Hne Hfirst fieldnames. unfold fieldnames. clear fieldnames.
  unfold process_record, resolve_headers, destination in *. io_open.
  destruct (schemas L !! S) as [sch0|]; [|simpl in H; by simplify_eq].
  destruct (validators L !! S) as [sch|]; [|simpl in H; by simplify_eq].
  destruct (schema_accepts P sch r); [|simpl in H; by simplify_eq].
  set (p := expanduser _ _) in *.
  rewrite Hfix in H. simpl in H. rewrite Hnone in H.
  unfold empty_or_missing in H. rewrite Htext in H.
  apply String.eqb_neq in Hne. rewrite Hne in H. simpl in H.
  rewrite Htext, Hfirst in H. simpl in H. rewrite lookup_insert_eq in H.
  match type of H with
  | context [write_record _ _ _ _ ?h ?b _ _] =>
      destruct (write_record_cases P delimiter quotechar p h b r w)
        as [E|[E|(e0 & added & _ & E)]]
  end; rewrite E in H; simpl in H; [|by simplify_eq|by simplify_eq].
  simplify_eq. simpl. rewrite !lookup_insert_eq, Htext. done.
Qed.

(** X10: the first RECORD of a stream in a run, for a stream without
    fixed headers whose destination file already has text, is laid out by
    the first row of that file, and no header row is written; when that
    first row is blank the record's own field names are used instead, and
    still no header row is written. *)
Theorem existing_header_adopted S r before w0 L w L' w' text first_line :
  loop P delimiter quotechar destination_path fixed_headers
    before initial_locals w0 = (inr L, w) ->
  existsb (record_of S) before = false ->
  process_record P delimiter quotechar destination_path fixed_headers
    S r L w = (inr L', w') ->
  fixed_entry fixed_headers S = None ->
  fs w !! destination P destination_path S = Some text -> text <> "" ->
  csv_first_row P delimiter quotechar text = Some first_line ->
  let fieldnames := match first_line with [] => od_keys r | _ => first_line end in
  headers L' !! S = Some fieldnames
  /\ fs w' !! destination P destination_path S
     = Some (text +:+ writerow P delimiter quotechar fieldnames r).
Proof.
  intros Hrun Hnorec Hstep Hfix Htext Hne Hfirst.
  eapply process_record_first_touch; try done.
  rewrite (loop_headers_untouched _ _ _ _ _ _ Hrun Hnorec). apply lookup_empty.
Qed.

(** X11: a RECORD of one stream leaves the cached header list, the
    manifest entry and the schema of every other stream as they were, and
    leaves every file other than its own destination untouched. *)
Theorem record_touches_own_stream_only s r L w L' w' S :
  process_record P delimiter quotechar destination_path fixed_headers
    s r L w = (inr L', w') ->
  s <> S ->
  headers L' !! S = headers L !! S
  /\ od_get S (stream_2_filenames L') = od_get S (stream_2_filenames L)
  /\ schemas L' !! S = schemas L !! S
  /\ validators L' !! S = validators L !! S
  /\ forall filename,
       filename <> destination P destination_path s ->
       fs w' !! filename = fs w !! filename.
Proof.
  intros H Hne.
  apply process_record_inv in H as (hdr & _ & -> & _ & -> & -> & -> & -> & _).
  split_and!; try done.
  - by rewrite lookup_insert_ne.
  - by apply od_get_set_ne.
  - intros filename Hf. simpl. by rewrite lookup_insert_ne.
Qed.

End Behaviour.

(** ** Further behaviour of [persist_messages] and [main] *)

Section Whole_run.
Variable P : platform.

Lemma persist_inv d q messages dp fh host user pw port key fmt w res w' :
  persist_messages P d q messages dp fh host user pw port key fmt w = (res, w') ->
  exists res0 w1,
    loop P d q dp fh messages initial_locals w = (res0, w1)
    /\ fs w' = fs w1 /\ stdout w' = stdout w
    /\ forall e, res0 = inl e -> res = inl e /\ w' = w1.
Proof.
  unfold persist_messages, bind.
  destruct (loop P d q dp fh messages initial_locals w) as [[e|L] w1] eqn:Hrun.
  - intros [= <- <-]. exists (inl e), w1.
    apply loop_traces in Hrun as [_ Hout]. split_and!; try done.
    by intros e' [= <-].
  - apply loop_traces in Hrun as Htr. destruct Htr as [_ Hout].
    intros H. exists (inr L), w1. split; [done|].
    destruct (truthy host && truthy pw && truthy user && truthy key && truthy fmt).
    + destruct (transfer P host user pw _ w1) as [[e|[]] w2] eqn:Ht;
        apply transfer_keeps_files in Ht as [Hfs Hout'];
        unfold ret in H; simplify_eq; rewrite Hfs, Hout', Hout; done.
    + unfold ret in H. simplify_eq. done.
Qed.

Lemma emit_state_inv st w :
  exists w', emit_state P st w = (inr tt, w') /\ fs w' = fs w /\ sftp_log w' = sftp_log w.
Proof. destruct st; simpl; unfold ret; by eexists. Qed.

(** X12: a run of [main], whether it ends normally or with an error,
    never deletes or shortens a file: a file present before the run is
    present after it and its old text is the beginning of its new text. *)
Theorem main_only_appends cfg messages w res w' filename old :
  main P cfg messages w = (res, w') ->
  fs w !! filename = Some old ->
  exists added, fs w' !! filename = Some (old +:+ added).
Proof.
  rewrite main_unfold.
  destruct (persist_messages _ _ _ _ _ _ _ _ _ _ _ _ w) as [r w1] eqn:Hp.
  apply persist_inv in Hp as (res0 & w0 & Hrun & Hfs & _).
  intros H Hold.
  destruct (loop_append_only _ _ _ _ _ _ _ _ _ _ _ _ Hrun Hold) as [added Hadded].
  exists added. rewrite <- Hfs in Hadded.
  destruct r as [e|st]; [by simplify_eq|].
  destruct (emit_state_inv st w1) as (w2 & He & Hfs2 & _).
  rewrite He in H. simplify_eq. by rewrite Hfs2.
Qed.

(** X13: a run of [main] that ends with an error, in the loop or in the
    transfer, writes nothing to standard output. *)
Theorem failed_run_prints_nothing cfg messages w e w' :
  main P cfg messages w = (inl e, w') -> stdout w' = stdout w.
Proof.
  rewrite main_unfold.
  destruct (persist_messages _ _ _ _ _ _ _ _ _ _ _ _ w) as [r w1] eqn:Hp.
  apply persist_inv in Hp as (res0 & w0 & _ & _ & Hout & _).
  destruct r as [e'|st]; [by intros [= <- <-]|].
  destruct (emit_state_inv st w1) as (w2 & He & _). rewrite He. done.
Qed.

(** X14: when the message loop raises, [main] ends with that exception in
    the world the loop left: the transfer is not started and nothing is
    printed. *)
Theorem loop_failure_skips_transfer cfg messages w e w1 :
  consume P cfg messages w = (inl e, w1) ->
  main P cfg messages w = (inl e, w1)
  /\ sftp_log w1 = sftp_log w /\ stdout w1 = stdout w.
Proof.
  unfold consume. intros Hrun. rewrite main_unfold.
  unfold persist_messages, bind. rewrite Hrun.
  by apply loop_traces in Hrun as [-> ->].
Qed.

Lemma destination_default S :
  String.prefix "~" S = false ->
  destination P "" S = stream_filename P S.
Proof.
  intros Htilde. unfold destination, expanduser.
  assert (path_join "" (stream_filename P S) = stream_filename P S) as ->.
  { unfold path_join. by destruct (String.prefix "/" (stream_filename P S)). }
  assert (String.prefix "~" (stream_filename P S) = false) as ->; [|done].
  unfold stream_filename. destruct S as [|c S]; [done|].
  change (String c S +:+ "-" +:+ now P +:+ ".csv")
    with (String c (S +:+ "-" +:+ now P +:+ ".csv")).
  unfold String.prefix in *.
  destruct (ascii_dec "~" c); [|done]. by destruct S.
Qed.

(** X15: with the default empty [destination_path], the file a RECORD is
    written to is the bare file name kept in the manifest, for every
    stream whose name does not start with a tilde. *)
Theorem destination_in_working_directory S :
  String.prefix "~" S = false ->
  destination P "" S = stream_filename P S.
Proof. apply destination_default. Qed.

Lemma put_all_ok filenames w :
  Forall (fun f => is_Some (fs w !! f)) filenames ->
  (forall l r text, put_ok P l r text = true) ->
  put_all P filenames w
  = (inr tt, World (fs w) (sftp_log w ++ map (fun f => Put f f true) filenames) (stdout w)).
Proof.
  intros Hfiles Hput. revert w Hfiles.
  induction filenames as [|f rest IH]; intros w Hfiles; simpl.
  - unfold ret. destruct w; simpl. by rewrite app_nil_r.
  - apply Forall_cons in Hfiles as [[text Hf] Hrest].
    unfold bind, sftp_put. rewrite Hf, Hput. rewrite IH by done.
    simpl. by rewrite <- app_assoc.
Qed.

(** X16: with the default empty [destination_path] and stream names that
    do not start with a tilde, every file name of the manifest is a file
    the loop wrote; so when the server accepts the connection, the channel
    and every copy, [persist_messages] returns the checkpoint after
    copying each manifest file once, in manifest order, and closing the
    channel and the client. *)
Theorem transfer_succeeds_in_working_directory
    d q messages fh host user pw port key fmt w L w1 :
  loop P d q "" fh messages initial_locals w = (inr L, w1) ->
  (forall S r, In (Decoded (RECORD S r)) messages -> String.prefix "~" S = false) ->
  truthy host && truthy pw && truthy user && truthy key && truthy fmt = true ->
  connect_ok P host user pw = true ->
  open_sftp_ok P = true ->
  (forall l r text, put_ok P l r text = true) ->
  let filenames := od_values (stream_2_filenames L) in
  Forall (fun f => is_Some (fs w1 !! f)) filenames
  /\ persist_messages P d q messages "" fh host user pw port key fmt w
     = (inr (state L),
        World (fs w1)
              (sftp_log w1
               ++ Connect host user pw true :: OpenSftp true
                  :: map (fun f => Put f f true) filenames
                  ++ [SftpClose; ClientClose])
              (stdout w1)).
Proof.
  intros Hrun Hnames Hgate Hconn Hopen Hput filenames.
  assert (Forall (fun f => is_Some (fs w1 !! f)) filenames) as Hfiles.
  { apply Forall_forall. intros f Hin. apply list_elem_of_In in Hin.
    apply in_map_iff in Hin as ([S f'] & Hf & Hin). simpl in Hf. subst f'.
    destruct (loop_manifest_shape P d q "" fh _ _ _ _ _ Hrun) as [Hshape _];
      [by intros k f0 []|constructor|].
    rewrite (Hshape _ _ Hin).
    apply od_In_get in Hin as [f0 Hget].
    rewrite (loop_manifest_get P d q "" fh S _ _ _ _ _ Hrun) in Hget.
    destruct (existsb (record_of S) messages) eqn:Hex; [|done].
    apply existsb_exists in Hex as (l & Hl & Hrec).
    destruct l as [[s r|?|? ? ?|? ?]| | |]; try done. simpl in Hrec.
    apply bool_decide_eq_true in Hrec as ->.
    rewrite <- (destination_default S) by (by eapply Hnames).
    by eapply loop_written. }
  split; [done|].
  unfold persist_messages, bind. rewrite Hrun, Hgate.
  unfold transfer, transfer_try, client_connect, client_open_sftp.
  rewrite Hconn, Hopen. fold filenames.
  rewrite put_all_ok by done.
  unfold bind, sftp_close, client_close, ret, log_sftp. simpl.
  do 2 f_equal. by rewrite <- !app_assoc.
Qed.

Lemma loop_without_records d q dp fh messages L w res w' :
  loop P d q dp fh messages L w = (res, w') ->
  existsb is_record messages = false ->
  w' = w
  /\ forall L', res = inr L' -> stream_2_filenames L' = stream_2_filenames L.
Proof.
  revert L w. induction messages as [|l rest IH]; intros L w; simpl.
  - unfold ret. intros [= <- <-] _. split; [done|]. by intros L' [= <-].
  - unfold bind. intros H [Hl Hrest]%orb_false_elim.
    destruct l as [[s r|v|s sch kp|t ver]| | |]; try done; simpl in H;
      unfold ret, raise in H; try (simplify_eq; done);
      by apply IH in H.
Qed.

(** X17: when the transfer is enabled and the input held no RECORD, the
    loop leaves the world as it was and a session is still opened and
    closed, with no copy in between (provided connecting and opening the
    channel succeed). *)
Theorem transfer_with_nothing_to_send
    d q messages dp fh host user pw port key fmt w L w1 :
  loop P d q dp fh messages initial_locals w = (inr L, w1) ->
  existsb is_record messages = false ->
  truthy host && truthy pw && truthy user && truthy key && truthy fmt = true ->
  connect_ok P host user pw = true ->
  open_sftp_ok P = true ->
  w1 = w
  /\ persist_messages P d q messages dp fh host user pw port key fmt w
     = (inr (state L),
        World (fs w)
              (sftp_log w ++ [Connect host user pw true; OpenSftp true;
                              SftpClose; ClientClose])
              (stdout w)).
Proof.
  intros Hrun Hnone Hgate Hconn Hopen.
  destruct (loop_without_records _ _ _ _ _ _ _ _ _ Hrun Hnone) as [-> Hman].
  split; [done|].
  unfold persist_messages, bind. rewrite Hrun, Hgate, (Hman L eq_refl).
  unfold transfer, transfer_try, client_connect, client_open_sftp.
  rewrite Hconn, Hopen. simpl.
  unfold bind, sftp_close, client_close, ret, log_sftp. simpl.
  do 2 f_equal. by rewrite <- !app_assoc.
Qed.

(** X18: a row has one cell per header column, and it depends only on the
    record's values for the header's field names: fields of the record
    that the header does not name make no difference. *)
Theorem row_depends_on_header_fields_only d q fieldnames r r' :
  (forall k, In k fieldnames -> od_get k r = od_get k r') ->
  length (dict_to_list fieldnames r) = length fieldnames
  /\ writerow P d q fieldnames r = writerow P d q fieldnames r'.
Proof.
  intros Hsame. unfold writerow, dict_to_list. split.
  - by rewrite length_map.
  - f_equal. apply map_ext_in. intros k Hk. by rewrite (Hsame k Hk).
Qed.

End Whole_run.

(** ** [key_properties] *)

Ltac io_steps :=
  unfold when_not in *;
  unfold bind, ret, raise, stat_is_empty, read_first_row in *.

Section Key_properties.
Variable P : platform.
Variables (delimiter quotechar destination_path : string).
Variable fixed_headers : option (gmap string (list string)).

Local Abbreviation run := (loop P delimiter quotechar destination_path fixed_headers).
Local Abbreviation step := (handle P delimiter quotechar destination_path fixed_headers).
Local Abbreviation on_record :=
  (process_record P delimiter quotechar destination_path fixed_headers).

Lemma process_record_key_properties S r L1 L2 w :
  without_key_properties L1 = without_key_properties L2 ->
  on_success without_key_properties (on_record S r L1 w)
  = on_success without_key_properties (on_record S r L2 w).
Proof.
  destruct L1 as [st1 sc1 m1 kp1 h1 v1], L2 as [st2 sc2 m2 kp2 h2 v2].
  unfold without_key_properties. simpl. intros [= -> -> -> -> ->].
  unfold process_record, resolve_headers, set_filename, set_headers, set_state.
  io_steps. simpl.
  destruct (sc2 !! S) as [sch0|]; [|done].
  destruct (v2 !! S) as [sch|]; [|done].
  destruct (schema_accepts P sch r); [|done].
  set (p := expanduser _ _).
  destruct (fixed_entry fixed_headers S) as [fixed|]; simpl.
  - destruct (h2 !! S) as [h0|] eqn:Hh; simpl.
    + rewrite Hh. by destruct (write_record P _ _ _ _ _ _ _) as [[?|[]] ?].
    + rewrite lookup_insert_eq. by destruct (write_record P _ _ _ _ _ _ _) as [[?|[]] ?].
  - destruct (bool_decide (h2 !! S = None) && negb (empty_or_missing (fs w) p)).
    + destruct (fs w !! p) as [text|]; [|done].
      destruct (csv_first_row P delimiter quotechar text); [|done].
      simpl. rewrite lookup_insert_eq. by destruct (write_record P _ _ _ _ _ _ _) as [[?|[]] ?].
    + simpl. rewrite lookup_insert_eq. by destruct (write_record P _ _ _ _ _ _ _) as [[?|[]] ?].
Qed.

Lemma handle_key_properties l L1 L2 w :
  without_key_properties L1 = without_key_properties L2 ->
  on_success without_key_properties (step (forget_key_props l) L1 w)
  = on_success without_key_properties (step l L2 w).
Proof.
  intros Heq. destruct l as [[s r|v|s sch kp|t ver]| | |]; simpl.
  - by apply process_record_key_properties.
  - destruct L1, L2. unfold without_key_properties in *. simpl in *. by simplify_eq.
  - destruct L1, L2. unfold without_key_properties in *. simpl in *. by simplify_eq.
  - unfold on_success, ret. simpl. by rewrite Heq.
  - done.
  - done.
  - done.
Qed.

Lemma loop_key_properties messages L1 L2 w :
  without_key_properties L1 = without_key_properties L2 ->
  on_success without_key_properties (run (map forget_key_props messages) L1 w)
  = on_success without_key_properties (run messages L2 w).
Proof.
  revert L1 L2 w. induction messages as [|l rest IH]; intros L1 L2 w Heq; simpl.
  - unfold on_success, ret. simpl. by rewrite Heq.
  - unfold bind. pose proof (handle_key_properties l L1 L2 w Heq) as Hstep.
    destruct (step (forget_key_props l) L1 w) as [[e1|L1'] w1],
             (step l L2 w) as [[e2|L2'] w2];
      unfold on_success in Hstep; simpl in Hstep; simplify_eq; [done|].
    apply IH. unfold without_key_properties. congruence.
Qed.

Lemma persist_key_properties messages host user pw port key fmt w :
  persist_messages P delimiter quotechar (map forget_key_props messages)
    destination_path fixed_headers host user pw port key fmt w
  = persist_messages P delimiter quotechar messages
      destination_path fixed_headers host user pw port key fmt w.
Proof.
  unfold persist_messages, bind.
  pose proof (loop_key_properties messages initial_locals initial_locals w eq_refl) as Hrun.
  destruct (run (map forget_key_props messages) initial_locals w) as [[e1|L1] w1],
           (run messages initial_locals w) as [[e2|L2] w2];
    unfold on_success in Hrun; simpl in Hrun; simplify_eq; [done|].
  destruct L1, L2. unfold without_key_properties in *. simpl in *. by simplify_eq.
Qed.

End Key_properties.

(** X19: the key properties of SCHEMA messages are stored and never read:
    blanking them in every SCHEMA message of the input changes neither the
    outcome of [main] nor the world it leaves. *)
Theorem key_properties_are_ignored (P : platform) cfg messages w :
  main P cfg (map forget_key_props messages) w = main P cfg messages w.
Proof. by rewrite !main_unfold, persist_key_properties. Qed.

(** ** The further properties on concrete inputs *)

Lemma plain_writerow_nonempty d q cells : csv_writerow plain d q cells <> "".
Proof.
  simpl. unfold plain_writerow. intros H.
  apply (f_equal String.length) in H. rewrite append_length in H.
  simpl in H. lia.
Qed.

(** X2, a nested mapping flattened under the parent key [p]. *)
Lemma flatten_nested_under_parent :
  exists rest, "p__a__b" = "p" +:+ "__" +:+ rest.
Proof.
  apply (flatten_keys_prefixed plain_dumps "__"
           [("a", PDict [("b", PInt 1)])] "p" "p__a__b" (PInt 1)).
  - discriminate.
  - vm_compute. by left.
Defined.

(** X3, the record [{x: 1, y: 2}]. *)
Lemma flatten_xy_record : flatten plain_dumps xy_record "" "__" = xy_record.
Proof.
  apply (flatten_flat_unchanged plain_dumps "__" xy_record).
  - repeat constructor; simpl; intros H; repeat destruct H as [H|H]; discriminate || done.
  - by repeat constructor.
Defined.

(** X5, a delimiter of two characters: the [DictWriter] cannot be built,
    and the destination file, opened before, is left behind empty. *)
Lemma bad_delimiter_leaves_empty_file :
  loop plain ";;" dquote "" None
    ([users_schema] ++ Decoded (RECORD "users" xy_record) :: [Decoded (STATE bookmark)])
    initial_locals empty_world
  = (inl TypeError, World (<[users_file := ""]> ∅) [] []).
Proof.
  apply (proj1 (failed_message_ends_run plain ";;" dquote "" None
                  [users_schema] (Decoded (RECORD "users" xy_record))
                  [Decoded (STATE bookmark)] initial_locals empty_world
                  (declare "users" (PDict []) (PList []) initial_locals) empty_world
                  TypeError (World (<[users_file := ""]> ∅) [] [])
                  eq_refl eq_refl)).
Defined.

(** X7, a record without [id] under a validator that wants one. *)
Lemma record_without_id_rejected :
  loop wants_id "," dquote "" None
    ([users_schema] ++ Decoded (RECORD "users" xy_record) :: []) initial_locals
    empty_world
  = (inl (ValidationError "users"), empty_world).
Proof.
  eapply (rejected_record_is_fatal wants_id "," dquote "" None
            [users_schema] "users" (PDict []) xy_record [] empty_world _ empty_world);
    reflexivity.
Defined.

(** X8, the error of a line that does not decode. *)
Lemma decode_error_is_no_key_error : JSONDecodeError <> KeyError "users".
Proof.
  exact (lookups_never_raise_key_error plain "," dquote "" None [Garbled]
           empty_world JSONDecodeError empty_world eq_refl "users").
Defined.

(** X9, two records with the fields [x] and [y] into a missing file. *)
Lemma two_uniform_records :
  exists L' w',
    loop plain "," dquote "" None
      (map (fun r => Decoded (RECORD "users" r))
           [xy_record; [("x", PInt 3); ("y", PInt 4)]])
      (declare "users" (PDict []) (PList []) initial_locals) empty_world
    = (inr L', w')
    /\ fs w' !! users_file
       = Some ("x,y" +:+ crlf +:+ "1,2" +:+ crlf +:+ "3,4" +:+ crlf).
Proof.
  eexists _, _. split; [vm_compute; reflexivity|].
  match goal with
  | |- fs ?w' !! _ = _ =>
      pose proof (uniform_records_fill_fresh_file plain "," dquote "" None
                    "users" ["x"; "y"] xy_record [[("x", PInt 3); ("y", PInt 4)]]
                    (declare "users" (PDict []) (PList []) initial_locals)
                    empty_world _ w' eq_refl eq_refl
                    (plain_writerow_nonempty "," dquote) eq_refl) as E
  end.
  vm_compute in E. vm_compute. apply E. by repeat constructor.
Defined.

(** X10, the record [{a: 1, b: 2, c: 3, d: 4}] appended to a file that
    starts with the header [a,b,c]: the row is [1,2,3]. *)
Lemma record_under_existing_header :
  exists L' w',
    process_record plain "," dquote "" None "users" abcd_record
      (declare "users" (PDict []) (PList []) initial_locals) abc_file
    = (inr L', w')
    /\ headers L' !! "users" = Some ["a"; "b"; "c"]
    /\ fs w' !! users_file = Some ("a,b,c" +:+ crlf +:+ "1,2,3" +:+ crlf).
Proof.
  eexists _, _. split; [vm_compute; reflexivity|].
  match goal with
  | |- headers ?L' !! _ = _ /\ fs ?w' !! _ = _ =>
      pose proof (existing_header_adopted plain "," dquote "" None
                    "users" abcd_record [users_schema] abc_file
                    (declare "users" (PDict []) (PList []) initial_locals)
                    abc_file L' w' ("a,b,c" +:+ crlf) ["a"; "b"; "c"]
                    eq_refl eq_refl eq_refl eq_refl eq_refl) as E
  end.
  vm_compute in E. vm_compute. apply E; [discriminate|reflexivity].
Defined.

(** X11, a RECORD of [users] seen from the stream [orders]. *)
Lemma users_record_leaves_orders :
  exists L' w',
    process_record plain "," dquote "" None "users" xy_record
      (declare "orders" (PDict []) (PList [])
         (declare "users" (PDict []) (PList []) initial_locals)) empty_world
    = (inr L', w')
    /\ headers L' !! "orders" = None
    /\ od_get "orders" (stream_2_filenames L') = None
    /\ schemas L' !! "orders" = Some (PDict []).
Proof.
  eexists _, _. split; [vm_compute; reflexivity|].
  match goal with
  | |- headers ?L' !! _ = _ /\ _ =>
      destruct (record_touches_own_stream_only plain "," dquote "" None
                  "users" xy_record
                  (declare "orders" (PDict []) (PList [])
                     (declare "users" (PDict []) (PList []) initial_locals))
                  empty_world L' _ "orders" eq_refl)
        as (Hh & Hm & Hs & _)
  end; [discriminate|].
  split_and!; [by rewrite Hh|by rewrite Hm|by rewrite Hs].
Defined.

(** X12, a run over a file that already starts with a header. *)
Lemma existing_header_kept :
  exists added,
    fs (snd (main plain empty_config
               [users_schema; Decoded (RECORD "users" abcd_record)] abc_file))
      !! users_file
    = Some (("a,b,c" +:+ crlf) +:+ added).
Proof.
  apply (main_only_appends plain empty_config
           [users_schema; Decoded (RECORD "users" abcd_record)] abc_file
           (fst (main plain empty_config
                   [users_schema; Decoded (RECORD "users" abcd_record)] abc_file))).
  - apply surjective_pairing.
  - reflexivity.
Defined.

(** X13, a run that ends at a record without schema. *)
Lemma failed_run_is_silent :
  stdout (snd (main plain empty_config
                 [Decoded (STATE bookmark); Decoded (RECORD "users" xy_record)]
                 empty_world))
  = stdout empty_world.
Proof.
  apply (failed_run_prints_nothing plain empty_config
           [Decoded (STATE bookmark); Decoded (RECORD "users" xy_record)]
           empty_world (RecordBeforeSchema "users")).
  vm_compute. reflexivity.
Defined.

(** X14, a line that does not decode, with the transfer enabled. *)
Lemma garbled_line_skips_transfer :
  main plain (five_credentials None) [Garbled] empty_world
  = (inl JSONDecodeError, empty_world)
  /\ sftp_log empty_world = sftp_log empty_world
  /\ stdout empty_world = stdout empty_world.
Proof.
  apply (loop_failure_skips_transfer plain (five_credentials None) [Garbled]
           empty_world JSONDecodeError empty_world).
  reflexivity.
Defined.

(** X15, the stream [users]. *)
Lemma users_destination :
  destination plain "" "users" = stream_filename plain "users".
Proof. apply (destination_in_working_directory plain "users"). reflexivity. Defined.

(** X16, one record written to the working directory and transferred. *)
Lemma written_file_is_transferred :
  persist_messages plain "," dquote
    [users_schema; Decoded (RECORD "users" xy_record)] "" None
    (PStr "files.example.org") (PStr "loader") (PStr "secret") PNone
    (PStr "AAAAB3Nza") (PStr "ssh-rsa") empty_world
  = (inr PNone,
     World (<[users_file := "x,y" +:+ crlf +:+ "1,2" +:+ crlf]> ∅)
           ([] ++ Connect (PStr "files.example.org") (PStr "loader") (PStr "secret") true
               :: OpenSftp true
               :: map (fun f => Put f f true) [users_file]
               ++ [SftpClose; ClientClose])
           []).
Proof.
  set (L := Locals PNone (<["users" := PDict []]> ∅) [("users", users_file)]
                   (<["users" := PList []]> ∅) (<["users" := ["x"; "y"]]> ∅)
                   (<["users" := PDict []]> ∅)).
  set (w1 := World (<[users_file := "x,y" +:+ crlf +:+ "1,2" +:+ crlf]> ∅) [] []).
  assert (loop plain "," dquote "" None
            [users_schema; Decoded (RECORD "users" xy_record)] initial_locals
            empty_world = (inr L, w1)) as Hrun by (vm_compute; reflexivity).
  refine (proj2 (transfer_succeeds_in_working_directory plain "," dquote
                   [users_schema; Decoded (RECORD "users" xy_record)] None
                   (PStr "files.example.org") (PStr "loader") (PStr "secret") PNone
                   (PStr "AAAAB3Nza") (PStr "ssh-rsa") empty_world L w1 Hrun
                   _ eq_refl eq_refl eq_refl (fun _ _ _ => eq_refl))).
  intros S r [H|[H|[]]]; [discriminate H|]. by injection H as <- _.
Defined.

(** X17, a SCHEMA and a STATE message with the transfer enabled. *)
Lemma session_opened_for_no_file :
  persist_messages plain "," dquote [users_schema; Decoded (STATE bookmark)] "" None
    (PStr "files.example.org") (PStr "loader") (PStr "secret") PNone
    (PStr "AAAAB3Nza") (PStr "ssh-rsa") empty_world
  = (inr bookmark,
     World ∅
           [Connect (PStr "files.example.org") (PStr "loader") (PStr "secret") true;
            OpenSftp true; SftpClose; ClientClose]
           []).
Proof.
  refine (proj2 (transfer_with_nothing_to_send plain "," dquote
                   [users_schema; Decoded (STATE bookmark)] "" None
                   (PStr "files.example.org") (PStr "loader") (PStr "secret") PNone
                   (PStr "AAAAB3Nza") (PStr "ssh-rsa") empty_world
                   (set_state bookmark (declare "users" (PDict []) (PList []) initial_locals))
                   empty_world eq_refl eq_refl eq_refl eq_refl eq_refl)).
Defined.

(** X18, the field [d] under the header [a,b,c]. *)
Lemma field_d_makes_no_difference :
  length (dict_to_list ["a"; "b"; "c"] abcd_record) = 3
  /\ writerow plain "," dquote ["a"; "b"; "c"] abcd_record
     = writerow plain "," dquote ["a"; "b"; "c"]
         [("a", PInt 1); ("b", PInt 2); ("c", PInt 3)].
Proof.
  apply (row_depends_on_header_fields_only plain "," dquote ["a"; "b"; "c"]
           abcd_record [("a", PInt 1); ("b", PInt 2); ("c", PInt 3)]).
  intros k [<-|[<-|[<-|[]]]]; reflexivity.
Defined.
